(** * Profile-stack resolution of [LocationsManager]

    A shallow embedding of
    [lib/portage/package/ebuild/_config/LocationsManager.py]:
    [_addProfile], [_expand_parent_colon], [load_profiles] and
    [set_root_override], together with the properties of the profile
    stack they build.

    The filesystem and the helpers imported from other portage modules
    are collaborators: they are passed around as two records, [FS] and
    [Collab].  Exceptions are values of [exn]; the in-place appends to
    [self.profiles] and [self.profiles_complex] are threaded as a
    [state]; unbounded recursion over a cyclic parent graph is cut by a
    fuel argument. *)

From Stdlib Require Import String Ascii List Bool Arith Lia Permutation.
Import ListNotations.
Open Scope string_scope.
Open Scope list_scope.

(* ================================================================== *)
(** ** Paths *)

(** A [pathlib.Path]: whether it has the root anchor, and its segments.
    [Path.parts] is the anchor (when present) followed by the segments. *)
Record Path : Type := mkPath {
  is_absolute : bool;
  segs : list string
}.

Definition parts (p : Path) : list string :=
  (if is_absolute p then ["/"] else []) ++ segs p.

Fixpoint list_eqb {A : Type} (eqb : A -> A -> bool) (l1 l2 : list A) : bool :=
  match l1, l2 with
  | [], [] => true
  | x :: l1', y :: l2' => eqb x y && list_eqb eqb l1' l2'
  | _, _ => false
  end.

Definition Path_eqb (a b : Path) : bool :=
  Bool.eqb (is_absolute a) (is_absolute b) && list_eqb String.eqb (segs a) (segs b).

Definition str_in (x : string) (l : list string) : bool :=
  existsb (String.eqb x) l.

Definition Path_in (p : Path) (l : list Path) : bool :=
  existsb (Path_eqb p) l.

(** [s.startswith(os.sep)] *)
Definition startswith_sep (s : string) : bool :=
  match s with
  | String c _ => Ascii.eqb c "/"%char
  | EmptyString => false
  end.

(** Splitting a string at every separator; [cur] is the piece being read. *)
Fixpoint split_sep (s cur : string) : list string :=
  match s with
  | EmptyString => [cur]
  | String c rest =>
      if Ascii.eqb c "/"%char then cur :: split_sep rest ""
      else split_sep rest (cur ++ String c "")%string
  end.

(** [Path(s)]: empty and ["."] segments are dropped, [".."] is kept. *)
Definition Path_of_string (s : string) : Path :=
  {| is_absolute := startswith_sep s;
     segs := filter (fun x => negb (String.eqb x "") && negb (String.eqb x "."))
                    (split_sep s "") |}.

(** [a / b]: an absolute right operand replaces the left one. *)
Definition joinpath (a b : Path) : Path :=
  if is_absolute b then b
  else {| is_absolute := is_absolute a; segs := segs a ++ segs b |}.

(** [p / "name"] *)
Definition child (p : Path) (name : string) : Path :=
  joinpath p (Path_of_string name).

(** [os.path.join(a, b, c)] followed by the conversion to a path. *)
Definition os_path_join3 (a : Path) (b c : string) : Path :=
  joinpath (joinpath a (Path_of_string b)) (Path_of_string c).

Fixpoint seg_prefix (a b : list string) : bool :=
  match a, b with
  | [], _ => true
  | x :: a', y :: b' => String.eqb x y && seg_prefix a' b'
  | _ :: _, [] => false
  end.

(** Modelled from the spec: [portage.is_relative_to] is imported by the
    module but defined elsewhere.  [is_relative_to p base] holds when
    [base] is a path-prefix of [p] (the spec's wording for the test on
    line 180); as with [PurePath.relative_to], an anchored and an
    unanchored path are never related. *)
Definition is_relative_to (p base : Path) : bool :=
  Bool.eqb (is_absolute p) (is_absolute base) && seg_prefix (segs base) (segs p).

(* ================================================================== *)
(** ** Strings *)

(** The ASCII characters that [str.strip()] removes. *)
Definition is_space (c : ascii) : bool :=
  let n := nat_of_ascii c in
  (Nat.leb 9 n && Nat.leb n 13) || (Nat.leb 28 n && Nat.leb n 32).

Fixpoint lstrip (s : string) : string :=
  match s with
  | EmptyString => EmptyString
  | String c rest => if is_space c then lstrip rest else s
  end.

Fixpoint rstrip (s : string) : string :=
  match s with
  | EmptyString => EmptyString
  | String c rest =>
      match rstrip rest with
      | EmptyString => if is_space c then EmptyString else String c EmptyString
      | r => String c r
      end
  end.

Definition strip (s : string) : string := rstrip (lstrip s).

(** [s.find(":")], with [None] for [-1]. *)
Fixpoint find_colon (s : string) : option nat :=
  match s with
  | EmptyString => None
  | String c rest =>
      if Ascii.eqb c ":"%char then Some 0 else option_map S (find_colon rest)
  end.

(** [s[:n]] and [s[n:]] *)
Fixpoint str_take (n : nat) (s : string) : string :=
  match n, s with
  | S n', String c rest => String c (str_take n' rest)
  | _, _ => EmptyString
  end.

Fixpoint str_drop (n : nat) (s : string) : string :=
  match n, s with
  | S n', String _ rest => str_drop n' rest
  | _, _ => s
  end.

(* ================================================================== *)
(** ** Python values, errors, results *)

(** Attributes such as [sysroot], [target_root] and [profile_path] hold
    either a [str] or a [Path]; the two never compare equal. *)
Inductive PyVal : Type :=
| PStr (s : string)
| PPath (p : Path).

Definition py_truthy (v : PyVal) : bool :=
  match v with
  | PStr s => negb (String.eqb s "")
  | PPath _ => true
  end.

Definition py_eq (a b : PyVal) : bool :=
  match a, b with
  | PStr s, PStr t => String.eqb s t
  | PPath p, PPath q => Path_eqb p q
  | _, _ => false
  end.

Definition py_ne (a b : PyVal) : bool := negb (py_eq a b).

(** [Path(v)] *)
Definition Path_of_pyval (v : PyVal) : Path :=
  match v with
  | PStr s => Path_of_string s
  | PPath p => p
  end.

(** The three [ParseError]s of [_addProfile] and the one of
    [_expand_parent_colon], which formats the reference as written. *)
Inductive parse_error : Type :=
| UnsupportedEAPI (eapi : string) (eapi_file : Path)
| EmptyParentFile (parentsFile : Path)
| ParentNotFound (parentPath : Path) (parentsFile : Path)
| ParentRefNotFound (parentPath : string) (parentsFile : Path).

(** The exceptions the file raises itself, the [AttributeError] of a
    method missing on a string, and the failure of [os.listdir].  What
    the helpers imported by the file may raise besides is not
    modelled. *)
Inductive exn : Type :=
| ParseError (e : parse_error)
| InvalidLocation (sysroot : PyVal)
| DirectoryNotFound (var : Path)
| AttributeError
| OSError (p : Path).

Inductive result (A : Type) : Type :=
| Return (a : A)
| Raise (e : exn).
Arguments Return {A} a.
Arguments Raise {A} e.

Definition bind {A B : Type} (r : result A) (k : A -> result B) : result B :=
  match r with
  | Return a => k a
  | Raise e => Raise e
  end.

Notation "x <- r ;; k" := (bind r (fun x => k))
  (at level 100, r at next level, right associativity).

(* ================================================================== *)
(** ** Collaborators *)

(** The structured form of a repository's [layout.conf]. *)
Record layout_data : Type := {
  ld_profile_formats : list string;
  profile_eapi_when_unspecified : option string
}.

Definition known_repo : Type := (Path * layout_data)%type.

(** Helpers and constants imported from [portage], [portage.const],
    [portage.eapi], [portage.util] and [portage.repository.config]. *)
Record Collab : Type := {
  normalize_path : Path -> Path;
  eapi_is_supported : string -> bool;
  eapi_allows_directories_on_profile_level_and_repository_level : string -> bool;
  _portage1_profiles_allow_directories : list string;
  get_location_for_name : string -> option Path;
  get_repo_for_location : Path -> option layout_data;
  parse_layout_conf : Path -> layout_data;
  _sync_mode : bool;
  PROFILE_PATH : Path;
  CUSTOM_PROFILE_PATH : Path
}.

(** What the module reads from the filesystem. *)
Record FS : Type := {
  realpath_segs : Path -> list string;
  cwd_segs : list string;
  readline : Path -> option string;
  path_exists : Path -> bool;
  grabfile : Path -> list string;
  listdir : Path -> option (list string);
  is_dir : Path -> bool;
  samefile : Path -> Path -> bool;
  read_corresponding_eapi_file : Path -> option string
}.

(** [p.resolve()] and [os.path.realpath(p)]: always anchored. *)
Definition Path_resolve (fs : FS) (p : Path) : Path :=
  {| is_absolute := true; segs := realpath_segs fs p |}.

(** [p.absolute()]: anchors at the working directory, nothing else. *)
Definition Path_absolute (fs : FS) (p : Path) : Path :=
  if is_absolute p then p
  else {| is_absolute := true; segs := cwd_segs fs ++ segs p |}.

(* ================================================================== *)
(** ** Profile nodes and the resolver's state *)

(** Modelled from the spec: the [_profile_node] named tuple is declared
    in [portage.repository.config]; the fields are the spec's
    ProfileNode, in the positional order of the two constructor calls. *)
Record _profile_node : Type := {
  path : Path;
  allow_directories : bool;
  is_user_profile : bool;
  formats : list string;
  eapi : option string;
  supports_build_id : bool;
  show_deprecated_warning : bool
}.

(** What [writemsg] and [warnings.warn] are called with. *)
Inductive message : Type :=
| Warn_portage1_format (profile_path : Path) (repo_name : option Path)
                       (files : list string)
| Msg_two_make_profile (used ignored : Path)
| Msg_unable_to_parse (profile_path : PyVal)
| Msg_parse_error (e : parse_error)
| Msg_not_a_directory (varname : string) (var : Path)
| Msg_sysroot_mismatch (sysroot : PyVal) (target_root : Path).

Record state : Type := {
  profiles : list Path;
  profiles_complex : list _profile_node;
  messages : list message
}.

Definition emit (st : state) (m : message) : state :=
  {| profiles := profiles st;
     profiles_complex := profiles_complex st;
     messages := messages st ++ [m] |}.

Definition append_node (st : state) (p : Path) (n : _profile_node) : state :=
  {| profiles := profiles st ++ [p];
     profiles_complex := profiles_complex st ++ [n];
     messages := messages st |}.

(** How a call that mutates the state ends.  [Diverged] is a recursion
    deeper than the fuel; the interpreter's own recursion limit is not
    modelled. *)
Inductive outcome : Type :=
| Done (st : state)
| Raised (e : exn) (st : state)
| Diverged.

Definition _PORTAGE1_DIRECTORIES : list string :=
  ["package.mask"; "package.provided"; "package.use"; "package.use.force";
   "package.use.mask"; "use.force"; "use.mask"].

Definition _allow_parent_colon : list string := ["portage-2"].

(** [max(l, key=key)]: the first element whose key is maximal. *)
Definition py_max {A : Type} (key : A -> nat) (l : list A) : option A :=
  match l with
  | [] => None
  | x :: rest =>
      Some (fold_left (fun best y => if Nat.ltb (key best) (key y) then y else best)
                      rest x)
  end.

(** [lambda x: len(x[0].parts)] *)
Definition parts_len (x : known_repo) : nat := List.length (parts (fst x)).

(** [set(...)] over paths, as a duplicate-free list. *)
Fixpoint dedup (l : list Path) : list Path :=
  match l with
  | [] => []
  | x :: rest => if Path_in x rest then dedup rest else x :: dedup rest
  end.

(** One turn of the loop over the parent file: the joined path, whether
    [absolute()] was applied to it, and the path whose existence is
    tested. *)
Record parent_step : Type := {
  joined : Path;
  reresolved : bool;
  target : Path
}.

(* ================================================================== *)
(** ** The resolver *)

Section Resolver.

Variable env : Collab.
Variable fs : FS.

(** Lines 279-306. *)
Definition _expand_parent_colon (parentsFile : Path) (parentPath : string)
    (repo_loc : option Path) : result Path :=
  match find_colon parentPath with
  | None => Return (Path_of_string parentPath)
  | Some colon =>
      if Nat.eqb colon 0 then
        match repo_loc with
        | None => Raise (ParseError (ParentRefNotFound parentPath parentsFile))
        | Some loc =>
            Return (normalize_path env
                      (os_path_join3 loc "profiles" (str_drop (colon + 1) parentPath)))
        end
      else
        let p_repo_name := str_take colon parentPath in
        match get_location_for_name env p_repo_name with
        | None => Raise (ParseError (ParentRefNotFound parentPath parentsFile))
        | Some p_repo_loc =>
            Return (normalize_path env
                      (os_path_join3 p_repo_loc "profiles"
                                     (str_drop (colon + 1) parentPath)))
        end
  end.

(** Lines 179-186: the repositories containing the resolved path, and
    the one the node is attributed to. *)
Definition intersecting (known_repos : list known_repo) (currentPath : Path)
  : list known_repo :=
  filter (fun x => is_relative_to (Path_resolve fs currentPath) (fst x)) known_repos.

Definition matched_repo (known_repos : list known_repo) (currentPath : Path)
  : option known_repo :=
  py_max parts_len (intersecting known_repos currentPath).

Definition repo_loc_of (m : option known_repo) : option Path := option_map fst m.

(** [eapi or "0"] *)
Definition or_zero (e : option string) : string :=
  match e with
  | Some s => if String.eqb s "" then "0" else s
  | None => "0"
  end.

Definition default_eapi (m : option known_repo) : string :=
  or_zero (match m with
           | Some (_, layout) => profile_eapi_when_unspecified layout
           | None => None
           end).

(** Lines 186-205: the [else] branch of the [try] runs only when the
    marker file could be opened. *)
Definition resolve_eapi (currentPath : Path) (m : option known_repo) : result string :=
  let eapi_file := child currentPath "eapi" in
  match readline fs eapi_file with
  | None => Return (default_eapi m)
  | Some line =>
      let e := strip line in
      if eapi_is_supported env e then Return e
      else Raise (ParseError (UnsupportedEAPI e (Path_resolve fs eapi_file)))
  end.

(** Lines 207-214. *)
Definition allow_directories_of (m : option known_repo) (e : string) : bool :=
  match m with
  | None => true
  | Some (_, layout) =>
      eapi_allows_directories_on_profile_level_and_repository_level env e
      || existsb (fun x => str_in x (_portage1_profiles_allow_directories env))
                 (ld_profile_formats layout)
  end.

Definition compat_mode_of (m : option known_repo) (e : string) : bool :=
  match m with
  | None => false
  | Some (_, layout) =>
      negb (eapi_allows_directories_on_profile_level_and_repository_level env e)
      && list_eqb String.eqb (ld_profile_formats layout) ["portage-1-compat"]
  end.

Definition allow_parent_colon_of (m : option known_repo) : bool :=
  match m with
  | None => true
  | Some (_, layout) =>
      existsb (fun x => str_in x _allow_parent_colon) (ld_profile_formats layout)
  end.

Definition current_formats_of (m : option known_repo) : list string :=
  match m with
  | None => []
  | Some (_, layout) => ld_profile_formats layout
  end.

(** Lines 222-223. *)
Definition show_deprecated_warning_of (previous_repos intersecting_repos : list known_repo)
  : bool :=
  negb (list_eqb Path_eqb (map fst previous_repos) (map fst intersecting_repos)).

(** Lines 226-228.  The intersection is a set and the survivors are
    sorted, so the result is the sorted constant filtered. *)
Definition legacy_offenders (currentPath : Path) (names : list string) : list string :=
  filter (fun x => str_in x names && is_dir fs (child currentPath x))
         _PORTAGE1_DIRECTORIES.

(** Lines 225-240. *)
Definition legacy_scan (currentPath : Path) (m : option known_repo) (e : string)
    (st : state) : result state :=
  if compat_mode_of m e then
    match listdir fs currentPath with
    | None => Raise (OSError currentPath)
    | Some names =>
        match legacy_offenders currentPath names with
        | [] => Return st
        | offenders =>
            Return (emit st (Warn_portage1_format currentPath (repo_loc_of m) offenders))
        end
    end
  else Return st.

(** Lines 272-277. *)
Definition make_node (currentPath : Path) (m : option known_repo) (e : string)
    (sdw : bool) : _profile_node :=
  {| path := currentPath;
     allow_directories := allow_directories_of m e;
     is_user_profile := false;
     formats := current_formats_of m;
     eapi := Some e;
     supports_build_id := str_in "build-id" (current_formats_of m);
     show_deprecated_warning := sdw |}.

(** Lines 259-260. *)
Definition needs_absolute (repo_loc : option Path) (parentPath : Path) : bool :=
  is_absolute parentPath
  || match repo_loc with
     | None => true
     | Some loc => negb (is_relative_to loc parentPath)
     end.

(** Lines 249-263. *)
Definition step_parent (currentPath parentsFile : Path) (repo_loc : option Path)
    (allow_parent_colon : bool) (parentPath : string) : result parent_step :=
  p <- (if negb (startswith_sep parentPath) && allow_parent_colon
        then _expand_parent_colon parentsFile parentPath repo_loc
        else Return (Path_of_string parentPath)) ;;
  let j := normalize_path env (joinpath currentPath p) in
  let re := needs_absolute repo_loc j in
  Return {| joined := j;
            reresolved := re;
            target := if re then Path_absolute fs j else j |}.

(** Lines 248-270: the loop over the parent file, [visit] being the
    recursive call. *)
Fixpoint addParents (visit : Path -> state -> outcome)
    (currentPath parentsFile : Path) (repo_loc : option Path)
    (allow_parent_colon : bool) (parents : list string) (st : state) : outcome :=
  match parents with
  | [] => Done st
  | parentPath :: rest =>
      match step_parent currentPath parentsFile repo_loc allow_parent_colon parentPath with
      | Raise e => Raised e st
      | Return step =>
          if path_exists fs (target step) then
            match visit (target step) st with
            | Done st' =>
                addParents visit currentPath parentsFile repo_loc allow_parent_colon
                           rest st'
            | Raised e st' => Raised e st'
            | Diverged => Diverged
            end
          else Raised (ParseError (ParentNotFound (target step) parentsFile)) st
      end
  end.

(** Lines 170-277. *)
Fixpoint _addProfile (fuel : nat) (currentPath : Path)
    (known_repos previous_repos : list known_repo) (st : state) : outcome :=
  match fuel with
  | O => Diverged
  | S fuel' =>
      let intersecting_repos := intersecting known_repos currentPath in
      let m := py_max parts_len intersecting_repos in
      match resolve_eapi currentPath m with
      | Raise e => Raised e st
      | Return e =>
          let sdw := show_deprecated_warning_of previous_repos intersecting_repos in
          match legacy_scan currentPath m e st with
          | Raise err => Raised err st
          | Return st1 =>
              let parentsFile := child currentPath "parent" in
              let after_parents :=
                if path_exists fs parentsFile then
                  let parents := grabfile fs parentsFile in
                  match parents with
                  | [] => Raised (ParseError (EmptyParentFile parentsFile)) st1
                  | _ :: _ =>
                      addParents
                        (fun p s => _addProfile fuel' p known_repos intersecting_repos s)
                        currentPath parentsFile (repo_loc_of m)
                        (allow_parent_colon_of m) parents st1
                  end
                else Done st1 in
              match after_parents with
              | Done st2 => Done (append_node st2 currentPath (make_node currentPath m e sdw))
              | Raised err st2 => Raised err st2
              | Diverged => Diverged
              end
          end
      end
  end.

End Resolver.

(* ================================================================== *)
(** ** The manager *)

(** The attributes [__init__] leaves behind that the two methods below
    read. *)
Record LocationsManager : Type := {
  config_root : Path;
  config_profile_path : option PyVal;
  _user_config : bool;
  target_root : option PyVal;
  sysroot : PyVal
}.

(** What [load_profiles] leaves on the instance. *)
Record loaded : Type := {
  profile_path : option PyVal;
  user_profile_dir : option Path;
  final : state
}.

Inductive load_outcome : Type :=
| Loaded (r : loaded)
| LoadRaised (e : exn)
| LoadDiverged.

Definition empty_state (msgs : list message) : state :=
  {| profiles := []; profiles_complex := []; messages := msgs |}.

Section Manager.

Variable env : Collab.
Variable fs : FS.

(** Lines 69-72 of [__init__]. *)
Definition init_sysroot (arg : option PyVal) : PyVal :=
  match arg with
  | None => PStr "/"
  | Some v =>
      PPath (normalize_path env
               (Path_absolute fs (Path_of_pyval (if py_truthy v then v else PStr "/"))))
  end.

(** Lines 81-97.  A repository known to [repositories] answers with its
    own formats and EAPI, any other location through its layout file. *)
Definition build_known_repos (known_repository_paths : list Path) : list known_repo :=
  map (fun x => (x, match get_repo_for_location env x with
                    | Some layout => layout
                    | None => parse_layout_conf env x
                    end))
      (dedup (map (Path_resolve fs) known_repository_paths)).

(** Lines 99-125. *)
Definition select_profile_path (self : LocationsManager)
  : option PyVal * list message :=
  match config_profile_path self with
  | None =>
      let deprecated_profile_path := child (child (config_root self) "etc") "make.profile" in
      let new_profile_path := joinpath (config_root self) (PROFILE_PATH env) in
      if is_dir fs new_profile_path then
        (Some (PPath new_profile_path),
         if is_dir fs deprecated_profile_path
            && negb (samefile fs new_profile_path deprecated_profile_path)
         then [Msg_two_make_profile new_profile_path deprecated_profile_path]
         else [])
      else if is_dir fs deprecated_profile_path
           then (Some (PPath deprecated_profile_path), [])
           else (None, [])
  | Some v => (Some v, [])
  end.

Definition option_truthy (v : option PyVal) : bool :=
  match v with
  | Some x => py_truthy x
  | None => false
  end.

(** Lines 142-158. *)
Definition add_user_profile (self : LocationsManager) (st : state)
  : option Path * state :=
  match _user_config self, profiles st with
  | true, _ :: _ =>
      let custom_prof := joinpath (config_root self) (CUSTOM_PROFILE_PATH env) in
      if path_exists fs custom_prof then
        (Some custom_prof,
         append_node st custom_prof
           {| path := custom_prof;
              allow_directories := true;
              is_user_profile := true;
              formats := ["profile-bashrcs"; "profile-set"];
              eapi := read_corresponding_eapi_file fs custom_prof;
              supports_build_id := true;
              show_deprecated_warning := false |})
      else (None, st)
  | _, _ => (None, st)
  end.

(** Lines 129-140: the top-level call and its [except ParseError]. *)
Definition resolve_top (fuel : nat) (known_repos : list known_repo)
    (pp : option PyVal) (msgs : list message) : outcome :=
  match pp with
  | Some v =>
      if py_truthy v then
        match _addProfile env fs fuel (Path_resolve fs (Path_of_pyval v))
                          known_repos [] (empty_state msgs) with
        | Done st => Done st
        | Raised (ParseError e) st =>
            Done (empty_state
                    (messages st ++
                     if _sync_mode env then []
                     else [Msg_unable_to_parse v; Msg_parse_error e]))
        | Raised e st => Raised e st
        | Diverged => Diverged
        end
      else Done (empty_state msgs)
  | None => Done (empty_state msgs)
  end.

(** Lines 80-161. *)
Definition load_profiles (fuel : nat) (self : LocationsManager)
    (known_repository_paths : list Path) : load_outcome :=
  let known_repos := build_known_repos known_repository_paths in
  let '(pp, msgs) := select_profile_path self in
  match resolve_top fuel known_repos pp msgs with
  | Done st =>
      let '(upd, st') := add_user_profile self st in
      Loaded {| profile_path := pp; user_profile_dir := upd; final := st' |}
  | Raised e _ => LoadRaised e
  | Diverged => LoadDiverged
  end.

(** Lines 308-327.  [strip] exists on [str] only and [resolve] on
    [Path] only; [is_dir] is asked after [ensure_dirs] has run. *)
Definition set_root_override (self : LocationsManager) (root_overwrite : option PyVal)
  : list message * result Path :=
  let chosen : result (option PyVal) :=
    match target_root self, root_overwrite with
    | None, Some (PStr s) =>
        Return (if String.eqb (strip s) "" then None else Some (PStr s))
    | None, Some (PPath _) => Raise AttributeError
    | t, _ => Return t
    end in
  match chosen with
  | Raise e => ([], Raise e)
  | Return t =>
      let t' := if option_truthy t
                then match t with Some v => v | None => PPath (Path_of_string "/") end
                else PPath (Path_of_string "/") in
      match t' with
      | PStr _ => ([], Raise AttributeError)
      | PPath p =>
          let root := normalize_path env (Path_resolve fs p) in
          if py_ne (sysroot self) (PStr "/") && py_ne (sysroot self) (PPath root) then
            ([Msg_sysroot_mismatch (sysroot self) root],
             Raise (InvalidLocation (sysroot self)))
          else if is_dir fs root then ([], Return root)
          else ([Msg_not_a_directory "ROOT" root], Raise (DirectoryNotFound root))
      end
  end.

End Manager.

(* ================================================================== *)
(** ** The shape of a resolved stack *)

Section Shape.

Variable env : Collab.
Variable fs : FS.
Variable known_repos : list known_repo.

(** The loop body at a node of the parent graph: the reference [ref]
    of [currentPath]'s parent file, seen from that node. *)
Definition parent_edge (currentPath : Path) (ref : string) : result parent_step :=
  step_parent env fs currentPath (child currentPath "parent")
              (repo_loc_of (matched_repo fs known_repos currentPath))
              (allow_parent_colon_of (matched_repo fs known_repos currentPath))
              ref.

(** [Resolves p stack]: [stack] lists the sub-stacks of the parents of
    [p], one after the other in the order of the parent file, then [p]
    itself; each sub-stack has that shape in turn. *)
#[warnings="-register-all"] Inductive Resolves : Path -> list Path -> Prop :=
| Resolves_leaf : forall currentPath,
    path_exists fs (child currentPath "parent") = false ->
    Resolves currentPath [currentPath]
| Resolves_node : forall currentPath targets subs,
    path_exists fs (child currentPath "parent") = true ->
    Forall2 (fun ref t => exists step,
                 parent_edge currentPath ref = Return step /\ target step = t)
            (grabfile fs (child currentPath "parent")) targets ->
    Forall2 Resolves targets subs ->
    Resolves currentPath (concat subs ++ [currentPath]).

(** The parent graph is acyclic when some rank decreases along every
    edge to an existing parent. *)
Definition acyclic (rank : Path -> nat) : Prop :=
  forall currentPath ref step,
    path_exists fs (child currentPath "parent") = true ->
    In ref (grabfile fs (child currentPath "parent")) ->
    parent_edge currentPath ref = Return step ->
    path_exists fs (target step) = true ->
    (rank (target step) < rank currentPath)%nat.

End Shape.

Section Resolvable.

Variable env : Collab.
Variable fs : FS.
Variable known_repos : list known_repo.

(** Whether the scan of lines 225-240 gets through at a directory of
    EAPI [e]: outside compatibility mode nothing is listed, in it the
    directory must be listable. *)
Definition scan_succeeds (currentPath : Path) (e : string) : bool :=
  negb (compat_mode_of env (matched_repo fs known_repos currentPath) e)
  || match listdir fs currentPath with
     | Some _ => true
     | None => false
     end.

(** [resolvable depth p]: the tree of parents below [p] is less than
    [depth] levels deep and sound at every directory: the EAPI is
    accepted, the scan gets through, and a parent file, when there is
    one, yields at least one reference, every reference expands, and
    every target exists and is sound in turn. *)
Fixpoint resolvable (depth : nat) (currentPath : Path) : bool :=
  match depth with
  | O => false
  | S depth' =>
      match resolve_eapi env fs currentPath
                         (matched_repo fs known_repos currentPath) with
      | Raise _ => false
      | Return e =>
          scan_succeeds currentPath e
          && (if path_exists fs (child currentPath "parent") then
                match grabfile fs (child currentPath "parent") with
                | [] => false
                | _ :: _ =>
                    forallb
                      (fun ref =>
                         match parent_edge env fs known_repos currentPath ref with
                         | Raise _ => false
                         | Return step =>
                             path_exists fs (target step)
                             && resolvable depth' (target step)
                         end)
                      (grabfile fs (child currentPath "parent"))
                end
              else true)
      end
  end.

End Resolvable.

(** The same filesystem with every directory listing emptied: the
    legacy-layout scan finds nothing there. *)
Definition quiet (fs : FS) : FS :=
  {| realpath_segs := realpath_segs fs;
     cwd_segs := cwd_segs fs;
     readline := readline fs;
     path_exists := path_exists fs;
     grabfile := grabfile fs;
     listdir := fun p => option_map (fun _ => []) (listdir fs p);
     is_dir := is_dir fs;
     samefile := samefile fs;
     read_corresponding_eapi_file := read_corresponding_eapi_file fs |}.

(** An outcome with the emitted messages forgotten. *)
Definition silence (st : state) : state :=
  {| profiles := profiles st;
     profiles_complex := profiles_complex st;
     messages := [] |}.

Definition silenced (o : outcome) : outcome :=
  match o with
  | Done st => Done (silence st)
  | Raised e st => Raised e (silence st)
  | Diverged => Diverged
  end.

(* ================================================================== *)
(** ** Sample configurations *)

(** A normalisation after [os.path.normpath], standing in for
    [normalize_path] in the samples: [".."] removes the segment before
    it, and is dropped at the root. *)
Fixpoint collapse (anchored : bool) (acc l : list string) : list string :=
  match l with
  | [] => rev acc
  | x :: rest =>
      if String.eqb x ".." then
        match acc with
        | [] => if anchored then collapse anchored [] rest
                else collapse anchored [x] rest
        | top :: acc' =>
            if String.eqb top ".." then collapse anchored (x :: acc) rest
            else collapse anchored acc' rest
        end
      else collapse anchored (x :: acc) rest
  end.

Definition posix_normpath (p : Path) : Path :=
  {| is_absolute := is_absolute p; segs := collapse (is_absolute p) [] (segs p) |}.

Fixpoint assoc_path {A : Type} (p : Path) (l : list (Path * A)) : option A :=
  match l with
  | [] => None
  | (q, a) :: rest => if Path_eqb p q then Some a else assoc_path p rest
  end.

Fixpoint assoc_str {A : Type} (s : string) (l : list (string * A)) : option A :=
  match l with
  | [] => None
  | (t, a) :: rest => if String.eqb s t then Some a else assoc_str s rest
  end.

Definition sample_env (sync : bool) (names : list (string * Path))
    (layouts : list (Path * layout_data)) : Collab :=
  {| normalize_path := posix_normpath;
     eapi_is_supported := fun e => str_in e ["0"; "1"; "2"; "3"; "4"; "5"; "6"; "7"; "8"];
     eapi_allows_directories_on_profile_level_and_repository_level :=
       fun e => str_in e ["7"; "8"];
     _portage1_profiles_allow_directories := ["portage-1-compat"; "portage-1"; "portage-2"];
     get_location_for_name := fun n => assoc_str n names;
     get_repo_for_location := fun p => assoc_path p layouts;
     parse_layout_conf :=
       fun _ => {| ld_profile_formats := ["portage-1-compat"];
                   profile_eapi_when_unspecified := None |};
     _sync_mode := sync;
     PROFILE_PATH := Path_of_string "etc/portage/make.profile";
     CUSTOM_PROFILE_PATH := Path_of_string "etc/portage/profile" |}.

(** The entries of [dir] among [entries]. *)
Definition entries_of (dir : Path) (entries : list Path) : list string :=
  flat_map (fun q => match rev (segs q) with
                     | name :: up =>
                         if Path_eqb dir (mkPath (is_absolute q) (rev up))
                         then [name] else []
                     | [] => []
                     end) entries.

(** A filesystem without symbolic links, rooted at the working
    directory: its directories, and its files with their lines. *)
Definition sample_fs (dirs : list Path) (files : list (Path * list string)) : FS :=
  {| realpath_segs := fun p => collapse true [] (segs p);
     cwd_segs := [];
     readline := fun p => match assoc_path p files with
                          | Some (l :: _) => Some l
                          | Some [] => Some ""
                          | None => None
                          end;
     path_exists := fun p => Path_in p dirs || Path_in p (map fst files);
     grabfile := fun p => match assoc_path p files with
                          | Some ls => filter (fun l => negb (String.eqb l ""))
                                              (map strip ls)
                          | None => []
                          end;
     listdir := fun p => if Path_in p dirs
                         then Some (entries_of p (dirs ++ map fst files))
                         else None;
     is_dir := fun p => Path_in p dirs;
     samefile := Path_eqb;
     read_corresponding_eapi_file :=
       fun p => match assoc_path (child p "eapi") files with
                | Some (l :: _) => Some (strip l)
                | _ => None
                end |}.

Definition P (s : string) : Path := Path_of_string s.

Definition layout (fmts : list string) (e : option string) : layout_data :=
  {| ld_profile_formats := fmts; profile_eapi_when_unspecified := e |}.

(** Two repositories, one nested in the other; the profile [x] of the
    inner one inherits [arch] of the outer one and its own [feat]. *)
Definition tree_env : Collab :=
  sample_env false
    [("gentoo", P "/repo"); ("nested", P "/repo/nested")]
    [(P "/repo", layout ["portage-2"] (Some "7"));
     (P "/repo/nested", layout ["portage-2"; "build-id"] None)].

Definition tree_fs : FS :=
  sample_fs
    [P "/"; P "/etc"; P "/etc/portage"; P "/etc/portage/profile";
     P "/repo"; P "/repo/profiles"; P "/repo/profiles/base";
     P "/repo/profiles/arch"; P "/repo/nested"; P "/repo/nested/profiles";
     P "/repo/nested/profiles/feat"; P "/repo/nested/profiles/x"]
    [(P "/repo/profiles/arch/eapi", [" 6 "]);
     (P "/repo/profiles/arch/parent", ["../base"]);
     (P "/repo/nested/profiles/x/parent", ["gentoo:arch"; ":feat"])].

Definition tree_known : list known_repo :=
  build_known_repos tree_env tree_fs [P "/repo"; P "/repo/nested"].

Definition tree_rank (p : Path) : nat :=
  if Path_eqb p (P "/repo/nested/profiles/x") then 2
  else if Path_eqb p (P "/repo/profiles/arch") then 1
  else 0.

Definition tree_manager : LocationsManager :=
  {| config_root := P "/";
     config_profile_path := Some (PPath (P "/repo/nested/profiles/x"));
     _user_config := true;
     target_root := None;
     sysroot := PStr "/" |}.

(** A repository whose layout declares an EAPI that is not supported. *)
Definition future_env : Collab :=
  sample_env false [("future", P "/repo")] [(P "/repo", layout ["portage-2"] (Some "99"))].

Definition future_fs : FS :=
  sample_fs [P "/"; P "/repo"; P "/repo/profiles"; P "/repo/profiles/p"] [].

Definition future_known : list known_repo :=
  build_known_repos future_env future_fs [P "/repo"].

(** A repository in compatibility mode whose two profiles keep
    [package.mask] as a directory. *)
Definition legacy_env : Collab :=
  sample_env false [("old", P "/repo")]
             [(P "/repo", layout ["portage-1-compat"] (Some "5"))].

Definition legacy_fs : FS :=
  sample_fs
    [P "/"; P "/repo"; P "/repo/profiles"; P "/repo/profiles/base";
     P "/repo/profiles/base/package.mask"; P "/repo/profiles/top";
     P "/repo/profiles/top/package.mask"]
    [(P "/repo/profiles/top/parent", ["../base"])].

Definition legacy_known : list known_repo :=
  build_known_repos legacy_env legacy_fs [P "/repo"].

(** A profile whose second parent does not exist. *)
Definition dangling_fs : FS :=
  sample_fs
    [P "/"; P "/repo"; P "/repo/profiles"; P "/repo/profiles/base";
     P "/repo/profiles/d"]
    [(P "/repo/profiles/d/parent", ["../base"; "../missing"])].

(** A profile with an empty parent file, read while syncing. *)
Definition sync_env : Collab :=
  sample_env true [("gentoo", P "/repo")] [(P "/repo", layout ["portage-2"] (Some "7"))].

Definition broken_fs : FS :=
  sample_fs [P "/"; P "/repo"; P "/repo/profiles"; P "/repo/profiles/bad"]
            [(P "/repo/profiles/bad/parent", [])].

Definition broken_manager : LocationsManager :=
  {| config_root := P "/";
     config_profile_path := Some (PPath (P "/repo/profiles/bad"));
     _user_config := true;
     target_root := None;
     sysroot := PStr "/" |}.

(** A manager built with an explicit [sysroot] of ["/"] and a target
    root elsewhere. *)
Definition root_fs : FS := sample_fs [P "/"; P "/foo"] [].

Definition explicit_sysroot_manager : LocationsManager :=
  {| config_root := P "/";
     config_profile_path := None;
     _user_config := true;
     target_root := Some (PPath (P "/foo"));
     sysroot := init_sysroot tree_env root_fs (Some (PPath (P "/"))) |}.

Definition default_sysroot_manager : LocationsManager :=
  {| config_root := P "/";
     config_profile_path := None;
     _user_config := true;
     target_root := Some (PPath (P "/foo"));
     sysroot := init_sysroot tree_env root_fs None |}.

(* ================================================================== *)
(** ** The constructor and the remaining methods *)

(** Constants of [portage.const] read by the constructor and by the
    end of [set_root_override]. *)
Record Constants : Type := {
  EPREFIX : Path;
  USER_CONFIG_PATH : Path;
  GLOBAL_CONFIG_PATH : Path
}.

(** Besides the exceptions of [exn], [Path.relative_to] and
    [shlex.split] raise [ValueError]. *)
Inductive failure : Type :=
| Known (e : exn)
| ValueError.

Inductive attempt (A : Type) : Type :=
| Built (a : A)
| Failed (f : failure).
Arguments Built {A} a.
Arguments Failed {A} f.

(** The instance after [__init__]: the attributes the two methods
    above read, and the others it sets. *)
Record instance : Type := {
  attrs : LocationsManager;
  eprefix : PyVal;
  abs_user_config : Path;
  esysroot : Path;
  broot : Path
}.

(** What [set_root_override] sets. *)
Record roots : Type := {
  root_target : Path;
  eroot : Path;
  global_config_path : Path
}.

(** What [set_port_dirs] sets. *)
Record port_dirs : Type := {
  portdir : option Path;
  portdir_overlay : string;
  overlay_profiles : list Path;
  profile_locations : list Path;
  profile_and_user_locations : list Path
}.

(** [p.relative_to(os.sep)], with [None] for the [ValueError] of an
    unanchored path. *)
Definition relative_to_sep (p : Path) : option Path :=
  if is_absolute p then Some {| is_absolute := false; segs := segs p |} else None.

Section Construction.

Variable env : Collab.
Variable fs : FS.
Variable const : Constants.

(** Lines 163-168.  [is_dir] is the answer of [isdir_raise_eaccess]
    when it gives one; the exception it raises for a directory that may
    not be searched is not modelled. *)
Definition _check_var_directory(varname : string) (var : Path)
  : list message * result unit :=
  if is_dir fs var then ([], Return tt)
  else ([Msg_not_a_directory varname var], Raise (DirectoryNotFound var)).

(** [v.relative_to(os.sep)] on an attribute that holds a string or a
    path. *)
Definition attr_relative_to_sep (v : PyVal) : attempt Path :=
  match v with
  | PStr _ => Failed (Known AttributeError)
  | PPath p => match relative_to_sep p with
               | Some rel => Built rel
               | None => Failed ValueError
               end
  end.

(** Lines 39-78.  The arguments annotated [Optional[Path]] are paths
    when given; a path is true, and never equal to the string
    [os.sep]. *)
Definition __init__ (config_root_arg eprefix_arg : option Path)
    (config_profile_path_arg : option PyVal) (local_config : bool)
    (target_root_arg sysroot_arg : option PyVal) : list message * attempt instance :=
  let eprefix1 :=
    match eprefix_arg with
    | None => PPath (EPREFIX const)
    | Some e =>
        let n := normalize_path env e in
        if py_eq (PPath n) (PStr "/") then PStr "" else PPath n
    end in
  let config_root1 :=
    normalize_path env
      (Path_resolve fs match config_root_arg with
                       | None => EPREFIX const
                       | Some c => c
                       end) in
  match _check_var_directory "PORTAGE_CONFIGROOT" config_root1 with
  | (msgs, Raise e) => (msgs, Failed (Known e))
  | (msgs, Return _) =>
      let sysroot1 := init_sysroot env fs sysroot_arg in
      match attr_relative_to_sep eprefix1 with
      | Failed f => (msgs, Failed f)
      | Built rel =>
          (msgs,
           Built {| attrs := {| config_root := config_root1;
                                config_profile_path := config_profile_path_arg;
                                _user_config := local_config;
                                target_root := target_root_arg;
                                sysroot := sysroot1 |};
                    eprefix := eprefix1;
                    abs_user_config := joinpath config_root1 (USER_CONFIG_PATH const);
                    esysroot := joinpath (Path_of_pyval sysroot1) rel;
                    broot := EPREFIX const |})
      end
  end.

(** Lines 308-334: [set_root_override] to its end. *)
Definition set_root_override_roots (self : instance) (root_overwrite : option PyVal)
  : list message * attempt roots :=
  match set_root_override env fs (attrs self) root_overwrite with
  | (msgs, Raise e) => (msgs, Failed (Known e))
  | (msgs, Return root) =>
      match attr_relative_to_sep (eprefix self) with
      | Failed f => (msgs, Failed f)
      | Built rel =>
          match relative_to_sep (GLOBAL_CONFIG_PATH const) with
          | None => (msgs, Failed ValueError)
          | Some g =>
              (msgs,
               Built {| root_target := root;
                        eroot := joinpath root rel;
                        global_config_path := joinpath (EPREFIX const) g |})
          end
      end
  end.

(** Lines 343-347: the loop over the overlays. *)
Definition add_overlay (acc : list Path) (ov : string) : list Path :=
  let profiles_dir := child (normalize_path env (Path_of_string ov)) "profiles" in
  if is_dir fs profiles_dir then acc ++ [profiles_dir] else acc.

(** Lines 336-356; [shlex_split] is [shlex.split], with [None] for its
    [ValueError]. *)
Definition set_port_dirs (shlex_split : string -> option (list string))
    (self : instance) (portdir_arg : option Path) (portdir_overlay_arg : option string)
  : attempt port_dirs :=
  let overlay := match portdir_overlay_arg with
                 | None => ""%string
                 | Some s => s
                 end in
  match shlex_split overlay with
  | None => Failed ValueError
  | Some tokens =>
      let ovs := fold_left add_overlay tokens [] in
      let locations := match portdir_arg with
                       | Some d => [child d "profiles"]
                       | None => []
                       end ++ ovs in
      Built {| portdir := portdir_arg;
               portdir_overlay := overlay;
               overlay_profiles := ovs;
               profile_locations := locations;
               profile_and_user_locations :=
                 if _user_config (attrs self)
                 then locations ++ [abs_user_config self]
                 else locations |}
  end.

End Construction.

(** A prefixed installation: the constants, the filesystem, and a
    tokeniser that splits at single spaces. *)
Definition prefix_const : Constants :=
  {| EPREFIX := P "/opt/gentoo";
     USER_CONFIG_PATH := P "etc/portage";
     GLOBAL_CONFIG_PATH := P "/usr/share/portage/config" |}.

Definition prefix_fs : FS :=
  sample_fs [P "/"; P "/opt"; P "/opt/gentoo"; P "/mnt"; P "/mnt/target";
             P "/repo"; P "/repo/profiles"; P "/overlay"; P "/overlay/profiles";
             P "/empty"] [].

Fixpoint split_spaces (s cur : string) : list string :=
  match s with
  | EmptyString => if String.eqb cur "" then [] else [cur]
  | String c rest =>
      if Ascii.eqb c " "%char
      then (if String.eqb cur "" then [] else [cur]) ++ split_spaces rest ""
      else split_spaces rest (cur ++ String c "")%string
  end.

Definition sample_split (s : string) : option (list string) :=
  Some (split_spaces s "").

(** The instance built in the prefixed installation for the target
    root [/mnt/target], used as sysroot as well. *)
Definition prefix_instance : instance :=
  {| attrs := {| config_root := P "/opt/gentoo";
                 config_profile_path := None;
                 _user_config := true;
                 target_root := Some (PPath (P "/mnt/target"));
                 sysroot := PPath (P "/mnt/target") |};
     eprefix := PPath (P "/opt/gentoo");
     abs_user_config := P "/opt/gentoo/etc/portage";
     esysroot := P "/mnt/target/opt/gentoo";
     broot := P "/opt/gentoo" |}.

(** [fs] with the directory [link] a symbolic link to [dest]: what
    resolves to [link] or below it resolves to [dest] or below it. *)
Definition with_symlink (fs : FS) (link dest : Path) : FS :=
  {| realpath_segs :=
       fun p => let q := realpath_segs fs p in
                if seg_prefix (segs link) q
                then segs dest ++ skipn (List.length (segs link)) q
                else q;
     cwd_segs := cwd_segs fs;
     readline := readline fs;
     path_exists := path_exists fs;
     grabfile := grabfile fs;
     listdir := listdir fs;
     is_dir := is_dir fs;
     samefile := samefile fs;
     read_corresponding_eapi_file := read_corresponding_eapi_file fs |}.

(** A profile [y] whose parent is reached through the symbolic link
    [link], which points to [base]. *)
Definition linked_fs : FS :=
  with_symlink
    (sample_fs
       [P "/"; P "/repo"; P "/repo/profiles"; P "/repo/profiles/base";
        P "/repo/profiles/link"; P "/repo/profiles/y"]
       [(P "/repo/profiles/y/parent", ["../link"])])
    (P "/repo/profiles/link") (P "/repo/profiles/base").

(** A manager pointed at a profile directory that does not exist, in
    the repository in compatibility mode. *)
Definition ghost_manager : LocationsManager :=
  {| config_root := P "/";
     config_profile_path := Some (PPath (P "/repo/profiles/ghost"));
     _user_config := true;
     target_root := None;
     sysroot := PStr "/" |}.

(** A manager given the empty string as profile path, on the sample
    tree, where the user's profile directory exists. *)
Definition profileless_manager : LocationsManager :=
  {| config_root := P "/";
     config_profile_path := Some (PStr "");
     _user_config := true;
     target_root := None;
     sysroot := PStr "/" |}.

(** A manager without a configured profile path, on the sample tree,
    where neither [make.profile] directory exists. *)
Definition unconfigured_manager : LocationsManager :=
  {| config_root := P "/";
     config_profile_path := None;
     _user_config := true;
     target_root := None;
     sysroot := PStr "/" |}.

(* ================================================================== *)
(** ** Predicates on states and outcomes *)

(** [Q] holds of the state a call leaves, however the call ends. *)
Definition leaves (o : outcome) (Q : state -> Prop) : Prop :=
  match o with
  | Done st => Q st
  | Raised _ st => Q st
  | Diverged => True
  end.

(** The two sequences advance together and hold no user profile. *)
Definition lockstep (st : state) : Prop :=
  map path (profiles_complex st) = profiles st
  /\ Forall (fun n => is_user_profile n = false) (profiles_complex st).

(** The directories of [entries] that hold a file named [parent]. *)
Definition parent_holders (entries : list Path) : list Path :=
  flat_map (fun q => match rev (segs q) with
                     | name :: up =>
                         if String.eqb name "parent"
                         then [mkPath (is_absolute q) (rev up)] else []
                     | [] => []
                     end) entries.



(** What [_addProfile] records on the node of the directory [path n]. *)
Definition node_of_directory (env : Collab) (fs : FS) (known_repos : list known_repo)
    (n : _profile_node) : Prop :=
  is_user_profile n = false
  /\ formats n = match matched_repo fs known_repos (path n) with
                 | Some r => ld_profile_formats (snd r)
                 | None => []
                 end
  /\ supports_build_id n = str_in "build-id" (formats n)
  /\ (matched_repo fs known_repos (path n) = None -> allow_directories n = true)
  /\ exists e,
       eapi n = Some e
       /\ resolve_eapi env fs (path n) (matched_repo fs known_repos (path n)) = Return e
       /\ (eapi_is_supported env "" = false -> e <> ""%string).

(* ================================================================== *)
(** ** Basic facts *)

Lemma list_eqb_spec (A : Type) (eqb : A -> A -> bool) :
  (forall x y, eqb x y = true <-> x = y) ->
  forall l1 l2, list_eqb eqb l1 l2 = true <-> l1 = l2.
Proof.
  intros Heq l1.
  induction l1 as [|x l1 IH]; intros [|y l2]; simpl; split; intro H;
    try discriminate; try reflexivity.
  - apply andb_true_iff in H as [Hx Hl].
    apply Heq in Hx. apply IH in Hl. congruence.
  - injection H as -> ->. apply andb_true_iff. split.
    + now apply Heq.
    + now apply IH.
Qed.

Lemma Path_eqb_spec (a b : Path) : Path_eqb a b = true <-> a = b.
Proof.
  unfold Path_eqb. destruct a as [aa sa], b as [ab sb]; simpl.
  rewrite andb_true_iff, (list_eqb_spec _ String.eqb String.eqb_eq).
  split.
  - intros [Ha Hs]. apply eqb_prop in Ha. congruence.
  - intros H. injection H as -> ->. split; [apply eqb_reflx | reflexivity].
Qed.

Lemma Path_in_spec (p : Path) (l : list Path) : Path_in p l = true <-> In p l.
Proof.
  unfold Path_in. rewrite existsb_exists. split.
  - intros [q [Hq He]]. apply Path_eqb_spec in He. now subst.
  - intros H. exists p. split; [assumption | now apply Path_eqb_spec].
Qed.

Lemma py_max_fold_spec (A : Type) (key : A -> nat) (l : list A) (x : A) :
  let r := fold_left (fun best y => if Nat.ltb (key best) (key y) then y else best) l x in
  In r (x :: l) /\ forall y, In y (x :: l) -> (key y <= key r)%nat.
Proof.
  revert x. induction l as [|z l IH]; intros x; simpl.
  - split; [now left | intros y [<- | []]; lia].
  - set (x' := if Nat.ltb (key x) (key z) then z else x).
    destruct (IH x') as [Hin Hmax]. simpl in Hin, Hmax.
    assert (Hx' : (x' = x \/ x' = z) /\ (key x <= key x')%nat /\ (key z <= key x')%nat).
    { unfold x'. destruct (Nat.ltb_spec (key x) (key z)); repeat split; auto; lia. }
    destruct Hx' as [Hsel [Hkx Hkz]]. split.
    + destruct Hin as [Hin | Hin].
      * destruct Hsel as [Hs | Hs]; rewrite <- Hin, Hs; auto.
      * auto.
    + intros y [<- | [<- | Hy]].
      * specialize (Hmax x' (or_introl eq_refl)). lia.
      * specialize (Hmax x' (or_introl eq_refl)). lia.
      * apply Hmax. now right.
Qed.

Lemma py_max_some (A : Type) (key : A -> nat) (l : list A) (r : A) :
  py_max key l = Some r ->
  In r l /\ forall y, In y l -> (key y <= key r)%nat.
Proof.
  destruct l as [|x l]; simpl; [discriminate |].
  intros H. injection H as <-. apply py_max_fold_spec.
Qed.

Lemma py_max_none (A : Type) (key : A -> nat) (l : list A) :
  py_max key l = None <-> l = [].
Proof. destruct l; simpl; split; congruence. Qed.

Section ResolverFacts.

Variable env : Collab.
Variable fs : FS.

Lemma intersecting_spec (known_repos : list known_repo) (currentPath : Path) (x : known_repo) :
  In x (intersecting fs known_repos currentPath) <->
  In x known_repos /\ is_relative_to (Path_resolve fs currentPath) (fst x) = true.
Proof. unfold intersecting. apply filter_In. Qed.

Lemma matched_repo_some (known_repos : list known_repo) (currentPath : Path) (r : known_repo) :
  matched_repo fs known_repos currentPath = Some r ->
  In r known_repos
  /\ is_relative_to (Path_resolve fs currentPath) (fst r) = true
  /\ forall y, In y known_repos ->
               is_relative_to (Path_resolve fs currentPath) (fst y) = true ->
               (parts_len y <= parts_len r)%nat.
Proof.
  unfold matched_repo. intros H. apply py_max_some in H as [Hin Hmax].
  apply intersecting_spec in Hin as [Hin Hrel]. repeat split; try assumption.
  intros y Hy Hrely. apply Hmax. apply intersecting_spec. now split.
Qed.

Lemma matched_repo_none (known_repos : list known_repo) (currentPath : Path) :
  matched_repo fs known_repos currentPath = None <->
  forall x, In x known_repos ->
            is_relative_to (Path_resolve fs currentPath) (fst x) = false.
Proof.
  unfold matched_repo. rewrite py_max_none. split.
  - intros Hnil x Hx.
    destruct (is_relative_to (Path_resolve fs currentPath) (fst x)) eqn:E; [|reflexivity].
    assert (Hin : In x (intersecting fs known_repos currentPath))
      by (apply intersecting_spec; now split).
    rewrite Hnil in Hin. destruct Hin.
  - intros Hall.
    destruct (intersecting fs known_repos currentPath) as [|x l] eqn:E; [reflexivity |].
    assert (Hin : In x (intersecting fs known_repos currentPath))
      by (rewrite E; now left).
    apply intersecting_spec in Hin as [Hin Hrel].
    rewrite (Hall x Hin) in Hrel. discriminate.
Qed.

(** A matched repository location is anchored, because the resolved
    path it contains is. *)
Lemma matched_repo_absolute (known_repos : list known_repo) (currentPath : Path)
    (r : known_repo) :
  matched_repo fs known_repos currentPath = Some r -> is_absolute (fst r) = true.
Proof.
  intros H. apply matched_repo_some in H as [_ [Hrel _]].
  unfold is_relative_to in Hrel. apply andb_true_iff in Hrel as [Habs _].
  simpl in Habs. destruct (is_absolute (fst r)); [reflexivity | discriminate].
Qed.

Lemma legacy_scan_keeps (currentPath : Path) (m : option known_repo) (e : string)
    (st st1 : state) :
  legacy_scan env fs currentPath m e st = Return st1 ->
  profiles st1 = profiles st /\ profiles_complex st1 = profiles_complex st
  /\ exists more, messages st1 = messages st ++ more.
Proof.
  unfold legacy_scan. intros H.
  destruct (compat_mode_of env m e).
  - destruct (listdir fs currentPath); [|discriminate].
    destruct (legacy_offenders fs currentPath l); injection H as <-; simpl.
    + repeat split. exists []. now rewrite app_nil_r.
    + repeat split. eexists. reflexivity.
  - injection H as <-. repeat split. exists []. now rewrite app_nil_r.
Qed.

(** The body of [_addProfile] with the recursive call named. *)
Lemma _addProfile_unfold (fuel : nat) (currentPath : Path)
    (known_repos previous_repos : list known_repo) (st : state) :
  _addProfile env fs (S fuel) currentPath known_repos previous_repos st =
  let intersecting_repos := intersecting fs known_repos currentPath in
  let m := matched_repo fs known_repos currentPath in
  match resolve_eapi env fs currentPath m with
  | Raise e => Raised e st
  | Return e =>
      match legacy_scan env fs currentPath m e st with
      | Raise err => Raised err st
      | Return st1 =>
          let parentsFile := child currentPath "parent" in
          match (if path_exists fs parentsFile then
                   match grabfile fs parentsFile with
                   | [] => Raised (ParseError (EmptyParentFile parentsFile)) st1
                   | _ :: _ =>
                       addParents env fs
                         (fun p s => _addProfile env fs fuel p known_repos
                                                 intersecting_repos s)
                         currentPath parentsFile (repo_loc_of m)
                         (allow_parent_colon_of m) (grabfile fs parentsFile) st1
                   end
                 else Done st1) with
          | Done st2 =>
              Done (append_node st2 currentPath
                      (make_node env currentPath m e
                         (show_deprecated_warning_of previous_repos intersecting_repos)))
          | Raised err st2 => Raised err st2
          | Diverged => Diverged
          end
      end
  end.
Proof. reflexivity. Qed.

End ResolverFacts.

(* ================================================================== *)
(** ** What a call does to the state *)

Section StateRelation.

Variable env : Collab.
Variable fs : FS.

(** A relation between the state before and after that every single
    update respects. *)
Variable R : state -> state -> Prop.
Hypothesis R_refl : forall st, R st st.
Hypothesis R_trans : forall a b c, R a b -> R b c -> R a c.
Hypothesis R_emit : forall st m, R st (emit st m).
Hypothesis R_append : forall st p n,
  path n = p -> is_user_profile n = false -> R st (append_node st p n).

Lemma legacy_scan_rel (currentPath : Path) (m : option known_repo) (e : string)
    (st st1 : state) :
  legacy_scan env fs currentPath m e st = Return st1 -> R st st1.
Proof.
  unfold legacy_scan. intros H.
  destruct (compat_mode_of env m e).
  - destruct (listdir fs currentPath); [|discriminate].
    destruct (legacy_offenders fs currentPath l); injection H as <-; auto.
  - injection H as <-. auto.
Qed.

Lemma addParents_rel (visit : Path -> state -> outcome)
    (currentPath parentsFile : Path) (repo_loc : option Path) (colon : bool) :
  (forall p s, leaves (visit p s) (R s)) ->
  forall parents st,
    leaves (addParents env fs visit currentPath parentsFile repo_loc colon parents st)
           (R st).
Proof.
  intros Hvisit parents.
  induction parents as [|ref rest IH]; intros st; simpl.
  - apply R_refl.
  - destruct (step_parent env fs currentPath parentsFile repo_loc colon ref) as [step|e];
      simpl; [|apply R_refl].
    destruct (path_exists fs (target step)); simpl; [|apply R_refl].
    specialize (Hvisit (target step) st).
    destruct (visit (target step) st) as [st'|e st'|]; simpl in *; auto.
    specialize (IH st').
    destruct (addParents env fs visit currentPath parentsFile repo_loc colon rest st');
      simpl in *; eauto.
Qed.

Lemma _addProfile_rel (fuel : nat) :
  forall currentPath known_repos previous_repos st,
    leaves (_addProfile env fs fuel currentPath known_repos previous_repos st) (R st).
Proof.
  induction fuel as [|fuel IH]; intros currentPath known_repos previous_repos st.
  - exact I.
  - rewrite _addProfile_unfold. cbv zeta.
    destruct (resolve_eapi env fs currentPath _) as [e|err]; simpl; [|apply R_refl].
    destruct (legacy_scan env fs currentPath _ e st) as [st1|err] eqn:Hscan;
      simpl; [|apply R_refl].
    apply legacy_scan_rel in Hscan.
    destruct (path_exists fs (child currentPath "parent")).
    + destruct (grabfile fs (child currentPath "parent")) as [|ref rest] eqn:Hgrab;
        [simpl; assumption |].
      pose proof (addParents_rel
                    (fun p s => _addProfile env fs fuel p known_repos
                                  (intersecting fs known_repos currentPath) s)
                    currentPath (child currentPath "parent")
                    (repo_loc_of (matched_repo fs known_repos currentPath))
                    (allow_parent_colon_of (matched_repo fs known_repos currentPath))
                    (fun p s => IH p known_repos _ s) (ref :: rest) st1) as Hloop.
      destruct (addParents env fs _ currentPath _ _ _ (ref :: rest) st1)
        as [st2|err st2|]; cbn [leaves] in *.
      * eapply R_trans; [eassumption |]. eapply R_trans; [eassumption |].
        now apply R_append.
      * eauto.
      * exact I.
    + simpl. eapply R_trans; [eassumption |]. now apply R_append.
Qed.

End StateRelation.

Lemma _addProfile_lockstep (env : Collab) (fs : FS) (fuel : nat) (currentPath : Path)
    (known_repos previous_repos : list known_repo) (st : state) :
  lockstep st ->
  leaves (_addProfile env fs fuel currentPath known_repos previous_repos st) lockstep.
Proof.
  intros Hst.
  pose proof (_addProfile_rel env fs (fun a b => lockstep a -> lockstep b)) as H.
  assert (Hgoal : leaves (_addProfile env fs fuel currentPath known_repos previous_repos st)
                         (fun b => lockstep st -> lockstep b)).
  { apply H; clear; unfold lockstep; simpl; auto.
    intros st p n Hp Hu [Hmap Hall]. split.
    - rewrite map_app, Hmap. simpl. now rewrite Hp.
    - apply Forall_app. split; [assumption | now constructor]. }
  destruct (_addProfile env fs fuel currentPath known_repos previous_repos st);
    simpl in *; auto.
Qed.

Lemma _addProfile_messages (env : Collab) (fs : FS) (fuel : nat) (currentPath : Path)
    (known_repos previous_repos : list known_repo) (st : state) :
  leaves (_addProfile env fs fuel currentPath known_repos previous_repos st)
         (fun st' => exists more, messages st' = messages st ++ more).
Proof.
  apply (_addProfile_rel env fs
           (fun a b => exists more, messages b = messages a ++ more)).
  - intros a. exists []. now rewrite app_nil_r.
  - intros a b c [m1 H1] [m2 H2]. exists (m1 ++ m2). now rewrite H2, H1, app_assoc.
  - intros a m. simpl. eauto.
  - intros a p n _ _. simpl. exists []. now rewrite app_nil_r.
Qed.

(** A call that returns has appended its own node last. *)
Lemma _addProfile_done (env : Collab) (fs : FS) (fuel : nat) (currentPath : Path)
    (known_repos previous_repos : list known_repo) (st st' : state) :
  _addProfile env fs fuel currentPath known_repos previous_repos st = Done st' ->
  exists st2 e,
    resolve_eapi env fs currentPath (matched_repo fs known_repos currentPath) = Return e
    /\ st' = append_node st2 currentPath
               (make_node env currentPath (matched_repo fs known_repos currentPath) e
                  (show_deprecated_warning_of previous_repos
                     (intersecting fs known_repos currentPath))).
Proof.
  destruct fuel as [|fuel]; [discriminate |].
  rewrite _addProfile_unfold. cbv zeta.
  destruct (resolve_eapi env fs currentPath _) as [e|err]; [|discriminate].
  destruct (legacy_scan env fs currentPath _ e st) as [st1|err]; [|discriminate].
  match goal with
  | |- match ?x with _ => _ end = _ -> _ => destruct x as [st2|err st2|]
  end; try discriminate.
  intros H. injection H as <-. eauto.
Qed.

(* ================================================================== *)
(** ** Order of the stack and termination *)

Section ShapeFacts.

Variable env : Collab.
Variable fs : FS.
Variable known_repos : list known_repo.

Lemma addParents_shape (visit : Path -> state -> outcome) (currentPath : Path) :
  (forall p s s', visit p s = Done s' ->
     exists stack, profiles s' = profiles s ++ stack
                   /\ Resolves env fs known_repos p stack) ->
  forall parents st st',
    addParents env fs visit currentPath (child currentPath "parent")
               (repo_loc_of (matched_repo fs known_repos currentPath))
               (allow_parent_colon_of (matched_repo fs known_repos currentPath))
               parents st = Done st' ->
    exists targets subs,
      Forall2 (fun ref t => exists step,
                   parent_edge env fs known_repos currentPath ref = Return step
                   /\ target step = t) parents targets
      /\ Forall2 (Resolves env fs known_repos) targets subs
      /\ profiles st' = profiles st ++ concat subs.
Proof.
  intros Hvisit parents.
  induction parents as [|ref rest IH]; intros st st'; simpl.
  - intros H. injection H as <-. exists [], []. repeat split; try constructor.
    simpl. now rewrite app_nil_r.
  - destruct (step_parent env fs currentPath _ _ _ ref) as [step|e] eqn:Hstep;
      [|discriminate].
    destruct (path_exists fs (target step)); [|discriminate].
    destruct (visit (target step) st) as [s1|e s1|] eqn:Hv; try discriminate.
    intros Hrest.
    destruct (Hvisit _ _ _ Hv) as [stack [Hprof Hres]].
    destruct (IH _ _ Hrest) as [targets [subs [Hedges [Hsubs Hprof']]]].
    exists (target step :: targets), (stack :: subs). repeat split.
    + constructor; [|assumption]. exists step. split; [exact Hstep | reflexivity].
    + now constructor.
    + simpl. now rewrite Hprof', Hprof, app_assoc.
Qed.

Lemma _addProfile_shape (fuel : nat) :
  forall currentPath previous_repos st st',
    _addProfile env fs fuel currentPath known_repos previous_repos st = Done st' ->
    exists stack, profiles st' = profiles st ++ stack
                  /\ Resolves env fs known_repos currentPath stack.
Proof.
  induction fuel as [|fuel IH]; intros currentPath previous_repos st st';
    [discriminate |].
  rewrite _addProfile_unfold. cbv zeta.
  destruct (resolve_eapi env fs currentPath _) as [e|err]; [|discriminate].
  destruct (legacy_scan env fs currentPath _ e st) as [st1|err] eqn:Hscan;
    [|discriminate].
  apply legacy_scan_keeps in Hscan as [Hp1 _].
  destruct (path_exists fs (child currentPath "parent")) eqn:Hex.
  - destruct (grabfile fs (child currentPath "parent")) as [|ref rest] eqn:Hgrab;
      [discriminate |].
    destruct (addParents env fs _ currentPath _ _ _ (ref :: rest) st1)
      as [st2|err st2|] eqn:Hloop; try discriminate.
    intros H. injection H as <-.
    apply addParents_shape in Hloop
      as [targets [subs [Hedges [Hsubs Hprof]]]]; [|intros p s s'; apply IH].
    exists (concat subs ++ [currentPath]). split.
    + simpl. now rewrite Hprof, Hp1, app_assoc.
    + apply Resolves_node with (targets := targets); try assumption.
      now rewrite Hgrab.
  - intros H. injection H as <-. exists [currentPath]. split.
    + simpl. now rewrite Hp1.
    + now apply Resolves_leaf.
Qed.

Lemma Resolves_last (currentPath : Path) (stack : list Path) :
  Resolves env fs known_repos currentPath stack ->
  exists before, stack = before ++ [currentPath].
Proof.
  intros H. inversion H; subst.
  - now exists [].
  - eauto.
Qed.

Variable rank : Path -> nat.
Hypothesis rank_decreases : acyclic env fs known_repos rank.

Lemma addParents_total (visit : Path -> state -> outcome) (currentPath : Path) :
  path_exists fs (child currentPath "parent") = true ->
  (forall p s, (rank p < rank currentPath)%nat -> visit p s <> Diverged) ->
  forall parents st,
    incl parents (grabfile fs (child currentPath "parent")) ->
    addParents env fs visit currentPath (child currentPath "parent")
               (repo_loc_of (matched_repo fs known_repos currentPath))
               (allow_parent_colon_of (matched_repo fs known_repos currentPath))
               parents st <> Diverged.
Proof.
  intros Hex Hvisit parents.
  induction parents as [|ref rest IH]; intros st Hincl; simpl; [discriminate |].
  destruct (step_parent env fs currentPath _ _ _ ref) as [step|e] eqn:Hstep;
    [|discriminate].
  destruct (path_exists fs (target step)) eqn:Htarget; [|discriminate].
  assert (Hlt : (rank (target step) < rank currentPath)%nat).
  { apply (rank_decreases currentPath ref step); try assumption.
    apply Hincl. now left. }
  specialize (Hvisit (target step) st Hlt).
  destruct (visit (target step) st) as [s1|e s1|]; try discriminate.
  - apply IH. intros x Hx. apply Hincl. now right.
  - congruence.
Qed.

Lemma _addProfile_total (fuel : nat) :
  forall currentPath previous_repos st,
    (rank currentPath < fuel)%nat ->
    _addProfile env fs fuel currentPath known_repos previous_repos st <> Diverged.
Proof.
  induction fuel as [|fuel IH]; intros currentPath previous_repos st Hlt; [lia |].
  rewrite _addProfile_unfold. cbv zeta.
  destruct (resolve_eapi env fs currentPath _) as [e|err]; [|discriminate].
  destruct (legacy_scan env fs currentPath _ e st) as [st1|err]; [|discriminate].
  destruct (path_exists fs (child currentPath "parent")) eqn:Hex; [|discriminate].
  destruct (grabfile fs (child currentPath "parent")) as [|ref rest] eqn:Hgrab;
    [discriminate |].
  pose proof (addParents_total
                (fun p s => _addProfile env fs fuel p known_repos
                              (intersecting fs known_repos currentPath) s)
                currentPath Hex) as Hloop.
  specialize (Hloop (fun p s Hp => IH p _ s ltac:(lia)) (ref :: rest) st1).
  rewrite Hgrab in Hloop. specialize (Hloop (incl_refl _)).
  destruct (addParents env fs _ currentPath _ _ _ (ref :: rest) st1);
    try discriminate. congruence.
Qed.

End ShapeFacts.

Section ResolvableFacts.

Variable env : Collab.
Variable fs : FS.
Variable known_repos : list known_repo.

Lemma legacy_scan_returns (currentPath : Path) (e : string) (st : state) :
  scan_succeeds env fs known_repos currentPath e = true
  <-> exists st1,
        legacy_scan env fs currentPath (matched_repo fs known_repos currentPath) e st
        = Return st1.
Proof.
  unfold scan_succeeds, legacy_scan.
  destruct (compat_mode_of env (matched_repo fs known_repos currentPath) e); simpl.
  - destruct (listdir fs currentPath) as [names|].
    + split; [|reflexivity]. intros _.
      destruct (legacy_offenders fs currentPath names); eauto.
    + split; [discriminate | intros [st1 H]; discriminate].
  - split; [eauto | reflexivity].
Qed.

Lemma addParents_returns (depth : nat) (visit : Path -> state -> outcome)
    (currentPath : Path) :
  (forall p s, resolvable env fs known_repos depth p = true ->
               exists s', visit p s = Done s') ->
  forall parents st,
    forallb (fun ref =>
               match parent_edge env fs known_repos currentPath ref with
               | Raise _ => false
               | Return step =>
                   path_exists fs (target step)
                   && resolvable env fs known_repos depth (target step)
               end) parents = true ->
    exists st',
      addParents env fs visit currentPath (child currentPath "parent")
                 (repo_loc_of (matched_repo fs known_repos currentPath))
                 (allow_parent_colon_of (matched_repo fs known_repos currentPath))
                 parents st = Done st'.
Proof.
  intros Hvisit parents.
  induction parents as [|ref rest IH]; intros st Hall; simpl; [eauto |].
  simpl in Hall. apply andb_true_iff in Hall as [Href Hrest].
  unfold parent_edge in Href.
  destruct (step_parent env fs currentPath _ _ _ ref) as [step|e]; [|discriminate].
  apply andb_true_iff in Href as [Hex Hres]. rewrite Hex.
  destruct (Hvisit (target step) st Hres) as [s1 Hs1]. rewrite Hs1.
  now apply IH.
Qed.

Lemma addParents_returned (depth : nat) (visit : Path -> state -> outcome)
    (currentPath : Path) :
  (forall p s s', visit p s = Done s' ->
                  resolvable env fs known_repos depth p = true) ->
  forall parents st st',
    addParents env fs visit currentPath (child currentPath "parent")
               (repo_loc_of (matched_repo fs known_repos currentPath))
               (allow_parent_colon_of (matched_repo fs known_repos currentPath))
               parents st = Done st' ->
    forallb (fun ref =>
               match parent_edge env fs known_repos currentPath ref with
               | Raise _ => false
               | Return step =>
                   path_exists fs (target step)
                   && resolvable env fs known_repos depth (target step)
               end) parents = true.
Proof.
  intros Hvisit parents.
  induction parents as [|ref rest IH]; intros st st'; simpl; [reflexivity |].
  unfold parent_edge.
  destruct (step_parent env fs currentPath _ _ _ ref) as [step|e]; [|discriminate].
  destruct (path_exists fs (target step)); [|discriminate].
  destruct (visit (target step) st) as [s1|e s1|] eqn:Hv; try discriminate.
  intros Hrest. rewrite (Hvisit _ _ _ Hv). simpl. eapply IH. eassumption.
Qed.

(** A call returns exactly on a sound tree that the fuel covers. *)
Lemma _addProfile_returns_iff (fuel : nat) :
  forall currentPath previous_repos st,
    resolvable env fs known_repos fuel currentPath = true
    <-> exists st',
          _addProfile env fs fuel currentPath known_repos previous_repos st = Done st'.
Proof.
  induction fuel as [|fuel IH]; intros currentPath previous_repos st.
  - simpl. split; [discriminate | intros [st' H]; discriminate].
  - rewrite _addProfile_unfold. cbv zeta. simpl resolvable.
    destruct (resolve_eapi env fs currentPath _) as [e|err];
      [|split; [discriminate | intros [st' H]; discriminate]].
    pose proof (legacy_scan_returns currentPath e st) as Hscan.
    destruct (legacy_scan env fs currentPath _ e st) as [st1|err].
    + assert (Hs : scan_succeeds env fs known_repos currentPath e = true)
        by (apply Hscan; eauto).
      rewrite Hs. simpl.
      destruct (path_exists fs (child currentPath "parent")); [|split; eauto].
      destruct (grabfile fs (child currentPath "parent")) as [|ref rest];
        [split; [discriminate | intros [st' H]; discriminate] |].
      split.
      * intros Hall.
        destruct (addParents_returns fuel
                    (fun p s => _addProfile env fs fuel p known_repos
                                  (intersecting fs known_repos currentPath) s)
                    currentPath
                    (fun p s H => proj1 (IH p _ s) H)
                    (ref :: rest) st1 Hall) as [st2 Hloop].
        rewrite Hloop. eauto.
      * intros [st' Hdone].
        destruct (addParents env fs _ currentPath _ _ _ (ref :: rest) st1)
          as [st2|err st2|] eqn:Hloop; try discriminate.
        refine (addParents_returned fuel _ currentPath _ (ref :: rest) st1 st2 Hloop).
        intros p s s' H. apply (IH p (intersecting fs known_repos currentPath) s).
        eauto.
    + split; [|intros [st' H]; discriminate].
      intros H. apply andb_true_iff in H as [Hs _].
      apply Hscan in Hs as [st1 Hs]. discriminate.
Qed.

End ResolvableFacts.

(** C1.  On an acyclic parent graph [_addProfile] ends once the fuel
    exceeds the rank of the starting directory.  It returns exactly
    when the tree below the starting directory is sound: every
    directory in it has an accepted EAPI and can be scanned, and every
    parent file in it lists at least one reference, all of which expand
    to existing directories.  The call that returns has appended a
    stack of the shape [Resolves]: at the starting node and at every
    node below it, the full sub-stacks of the listed parents, in the
    order of the parent file, come before the node, and the starting
    node is the last element. *)
Theorem C1_parents_before_node (env : Collab) (fs : FS) (known_repos : list known_repo)
    (rank : Path -> nat) (currentPath : Path) (previous_repos : list known_repo)
    (st : state) :
  acyclic env fs known_repos rank ->
  forall fuel, (rank currentPath < fuel)%nat ->
    _addProfile env fs fuel currentPath known_repos previous_repos st <> Diverged
    /\ (resolvable env fs known_repos fuel currentPath = true
        <-> exists st',
              _addProfile env fs fuel currentPath known_repos previous_repos st
              = Done st')
    /\ forall st',
         _addProfile env fs fuel currentPath known_repos previous_repos st = Done st' ->
         exists stack before,
           profiles st' = profiles st ++ stack
           /\ Resolves env fs known_repos currentPath stack
           /\ stack = before ++ [currentPath].
Proof.
  intros Hacyclic fuel Hfuel. split; [|split].
  - now apply _addProfile_total with (rank := rank).
  - apply _addProfile_returns_iff.
  - intros st' Hdone.
    destruct (_addProfile_shape env fs known_repos fuel _ _ _ _ Hdone)
      as [stack [Hprof Hres]].
    destruct (Resolves_last env fs known_repos _ _ Hres) as [before Hlast].
    exists stack, before. auto.
Qed.

(* ================================================================== *)
(** ** The sample tree *)

Lemma child_parent_shape (currentPath : Path) :
  child currentPath "parent"
  = mkPath (is_absolute currentPath) (segs currentPath ++ ["parent"]).
Proof. reflexivity. Qed.

Lemma sample_fs_parent_holder (dirs : list Path) (files : list (Path * list string))
    (currentPath : Path) :
  path_exists (sample_fs dirs files) (child currentPath "parent") = true ->
  In currentPath (parent_holders (dirs ++ map fst files)).
Proof.
  simpl. intros H.
  assert (Hin : In (child currentPath "parent") (dirs ++ map fst files)).
  { apply in_or_app. apply orb_true_iff in H as [H | H]; [left | right];
      now apply Path_in_spec. }
  unfold parent_holders. apply in_flat_map.
  exists (child currentPath "parent"). split; [assumption |].
  rewrite child_parent_shape. simpl. rewrite rev_unit. simpl.
  rewrite rev_involutive. destruct currentPath. now left.
Qed.

Lemma tree_acyclic : acyclic tree_env tree_fs tree_known tree_rank.
Proof.
  intros currentPath ref step Hex Hin Hedge _.
  apply sample_fs_parent_holder in Hex. vm_compute in Hex.
  destruct Hex as [<- | [<- | []]]; vm_compute in Hin;
    repeat (destruct Hin as [<- | Hin]); try (destruct Hin);
    vm_compute in Hedge; injection Hedge as <-; vm_compute; lia.
Qed.

Lemma C1_parents_before_node_witness :
  exists st' stack before,
    _addProfile tree_env tree_fs 3 (P "/repo/nested/profiles/x") tree_known []
                (empty_state []) = Done st'
    /\ profiles st' = profiles (empty_state []) ++ stack
    /\ Resolves tree_env tree_fs tree_known (P "/repo/nested/profiles/x") stack
    /\ stack = before ++ [P "/repo/nested/profiles/x"].
Proof.
  assert (Hrank : (tree_rank (P "/repo/nested/profiles/x") < 3)%nat)
    by (vm_compute; lia).
  destruct (C1_parents_before_node tree_env tree_fs tree_known tree_rank
              (P "/repo/nested/profiles/x") [] (empty_state []) tree_acyclic 3 Hrank)
    as [_ [Hreturns Hshape]].
  assert (Hsound : resolvable tree_env tree_fs tree_known 3
                              (P "/repo/nested/profiles/x") = true)
    by (vm_compute; reflexivity).
  destruct (proj1 Hreturns Hsound) as [st' Hdone].
  destruct (Hshape st' Hdone) as [stack [before [Hprof [Hres Hlast]]]].
  exists st', stack, before. auto.
Defined.

(** The stack of the sample tree, written out. *)
Example tree_stack :
  exists st',
    _addProfile tree_env tree_fs 3 (P "/repo/nested/profiles/x") tree_known []
                (empty_state []) = Done st'
    /\ profiles st' = [P "/repo/profiles/base"; P "/repo/profiles/arch";
                       P "/repo/nested/profiles/feat"; P "/repo/nested/profiles/x"].
Proof. eexists. split; vm_compute; reflexivity. Qed.

(* ================================================================== *)
(** ** Repository attribution and EAPI *)



(** In the sample tree the inner repository wins over the outer one. *)
Example tree_nested_repository_wins :
  option_map fst (matched_repo tree_fs tree_known (P "/repo/nested/profiles/x"))
  = Some (P "/repo/nested").
Proof. reflexivity. Qed.

(** C2, as the code has it.  When the [eapi] marker file can be read
    and its trimmed first line is not a supported EAPI, the call fails
    with a [ParseError] naming that file.  A call that returns has
    given its node the trimmed first line of the marker file when there
    is one, else the default EAPI declared by the matched repository,
    else ["0"]; the last two are not tested for support. *)
Theorem C2_eapi_precedence (env : Collab) (fs : FS) (fuel : nat) (currentPath : Path)
    (known_repos previous_repos : list known_repo) (st : state) :
  (forall line,
      readline fs (child currentPath "eapi") = Some line ->
      eapi_is_supported env (strip line) = false ->
      _addProfile env fs (S fuel) currentPath known_repos previous_repos st
      = Raised (ParseError (UnsupportedEAPI (strip line)
                              (Path_resolve fs (child currentPath "eapi")))) st)
  /\ forall st',
       _addProfile env fs fuel currentPath known_repos previous_repos st = Done st' ->
       exists st2 n,
         st' = append_node st2 currentPath n
         /\ eapi n = Some
              match readline fs (child currentPath "eapi") with
              | Some line => strip line
              | None =>
                  match matched_repo fs known_repos currentPath with
                  | Some r =>
                      match profile_eapi_when_unspecified (snd r) with
                      | Some d => if String.eqb d "" then "0" else d
                      | None => "0"
                      end
                  | None => "0"
                  end
              end.
Proof.
  split.
  - intros line Hline Hbad. rewrite _addProfile_unfold. cbv zeta.
    unfold resolve_eapi. now rewrite Hline, Hbad.
  - intros st' Hdone.
    apply _addProfile_done in Hdone as [st2 [e [He ->]]].
    eexists _, _. split; [reflexivity |]. simpl. f_equal.
    unfold resolve_eapi in He.
    destruct (readline fs (child currentPath "eapi")) as [line|].
    + destruct (eapi_is_supported env (strip line)); [|discriminate].
      now injection He.
    + injection He as <-. unfold default_eapi, or_zero.
      destruct (matched_repo fs known_repos currentPath) as [[loc layout]|];
        reflexivity.
Qed.

Lemma C2_eapi_precedence_witness :
  (_addProfile tree_env
     (sample_fs [P "/repo/profiles/p"] [(P "/repo/profiles/p/eapi", ["99"])])
     1 (P "/repo/profiles/p") tree_known [] (empty_state [])
   = Raised (ParseError (UnsupportedEAPI "99" (P "/repo/profiles/p/eapi")))
            (empty_state []))
  /\ match _addProfile tree_env tree_fs 1 (P "/repo/profiles/base") tree_known []
                       (empty_state []) with
     | Done st' =>
         exists st2 n,
           st' = append_node st2 (P "/repo/profiles/base") n /\ eapi n = Some "7"
     | _ => False
     end.
Proof.
  split.
  - exact (proj1 (C2_eapi_precedence tree_env
                    (sample_fs [P "/repo/profiles/p"]
                               [(P "/repo/profiles/p/eapi", ["99"])])
                    0 (P "/repo/profiles/p") tree_known [] (empty_state []))
                 "99" eq_refl eq_refl).
  - destruct (_addProfile tree_env tree_fs 1 (P "/repo/profiles/base") tree_known []
                          (empty_state [])) as [st'|e st'|] eqn:Hrun.
    + exact (proj2 (C2_eapi_precedence tree_env tree_fs 1 (P "/repo/profiles/base")
                      tree_known [] (empty_state [])) st' Hrun).
    + vm_compute in Hrun. discriminate.
    + vm_compute in Hrun. discriminate.
Defined.

(** The claim C2 fails for a repository default: the layout of the
    sample repository declares the unsupported EAPI ["99"], the profile
    has no marker file, and the call returns with a node of that EAPI. *)
Lemma C2_unsupported_default_accepted :
  eapi_is_supported future_env "99" = false
  /\ readline future_fs (child (P "/repo/profiles/p") "eapi") = None
  /\ exists st',
       _addProfile future_env future_fs 1 (P "/repo/profiles/p") future_known []
                   (empty_state []) = Done st'
       /\ map eapi (profiles_complex st') = [Some "99"].
Proof.
  split; [reflexivity |]. split; [reflexivity |].
  eexists. split; vm_compute; reflexivity.
Qed.

(* ================================================================== *)
(** ** Parent references *)

Lemma find_colon_app (name sub : string) :
  find_colon name = None ->
  find_colon (name ++ ":" ++ sub)%string = Some (String.length name).
Proof.
  induction name as [|c name IH]; simpl in *; intros H; [reflexivity |].
  destruct (Ascii.eqb c ":"%char); [discriminate |].
  destruct (find_colon name); [discriminate |].
  now rewrite IH.
Qed.

Lemma str_take_app (name rest : string) :
  str_take (String.length name) (name ++ rest)%string = name.
Proof. induction name as [|c name IH]; simpl; [now destruct rest | now rewrite IH]. Qed.

Lemma str_drop_app (name rest : string) :
  str_drop (String.length name) (name ++ rest)%string = rest.
Proof. induction name as [|c name IH]; simpl; [now destruct rest | assumption]. Qed.

Lemma str_drop_colon (name sub : string) :
  str_drop (String.length name + 1) (name ++ ":" ++ sub)%string = sub.
Proof.
  induction name as [|c name IH]; simpl; [now destruct sub | assumption].
Qed.

(** C7, as the code has it.  A reference without a colon is returned
    as the path it spells, a relative one unless it begins with the
    separator.  A reference [":sub"] expands to the normalised join of
    the current repository's location, [profiles] and [sub], and raises
    [ParseError] when the node has no repository; a reference
    ["name:sub"] expands to the normalised join of the location of
    [name], [profiles] and [sub], and raises [ParseError] when the
    lookup does not know [name].  The join is the location followed by
    [profiles] and the segments of [sub] when [sub] is relative, and
    [sub] alone when it begins with the separator. *)
Theorem C7_expand_parent_colon (env : Collab) (parentsFile : Path)
    (repo_loc : option Path) :
  (forall ref,
      find_colon ref = None ->
      _expand_parent_colon env parentsFile ref repo_loc = Return (Path_of_string ref)
      /\ (startswith_sep ref = false -> is_absolute (Path_of_string ref) = false))
  /\ (forall sub,
         _expand_parent_colon env parentsFile (":" ++ sub)%string repo_loc
         = match repo_loc with
           | None => Raise (ParseError (ParentRefNotFound (":" ++ sub)%string parentsFile))
           | Some loc =>
               Return (normalize_path env
                         (if startswith_sep sub then Path_of_string sub
                          else {| is_absolute := is_absolute loc;
                                  segs := segs loc
                                          ++ "profiles" :: segs (Path_of_string sub) |}))
           end)
  /\ (forall name sub,
         name <> ""%string ->
         find_colon name = None ->
         _expand_parent_colon env parentsFile (name ++ ":" ++ sub)%string repo_loc
         = match get_location_for_name env name with
           | None =>
               Raise (ParseError
                        (ParentRefNotFound (name ++ ":" ++ sub)%string parentsFile))
           | Some loc =>
               Return (normalize_path env
                         (if startswith_sep sub then Path_of_string sub
                          else {| is_absolute := is_absolute loc;
                                  segs := segs loc
                                          ++ "profiles" :: segs (Path_of_string sub) |}))
           end).
Proof.
  assert (Hjoin : forall loc sub,
            os_path_join3 loc "profiles" sub
            = if startswith_sep sub then Path_of_string sub
              else {| is_absolute := is_absolute loc;
                      segs := segs loc ++ "profiles" :: segs (Path_of_string sub) |}).
  { intros loc sub. unfold os_path_join3, joinpath. simpl.
    destruct (startswith_sep sub); [reflexivity |]. simpl. now rewrite <- app_assoc. }
  split; [|split].
  - intros ref Hnone. split.
    + unfold _expand_parent_colon. now rewrite Hnone.
    + intros Hrel. exact Hrel.
  - intros sub. unfold _expand_parent_colon. simpl.
    destruct repo_loc as [loc|]; [|reflexivity].
    rewrite <- Hjoin. now destruct sub.
  - intros name sub Hname Hcolon. unfold _expand_parent_colon.
    rewrite (find_colon_app name sub Hcolon).
    destruct (Nat.eqb_spec (String.length name) 0) as [Hlen | Hlen].
    + destruct name; [congruence | discriminate].
    + cbv zeta. rewrite str_take_app, str_drop_colon.
      destruct (get_location_for_name env name) as [loc|]; [|reflexivity].
      now rewrite Hjoin.
Qed.

Lemma C7_expand_parent_colon_witness :
  (_expand_parent_colon tree_env (P "/repo/nested/profiles/x/parent") "../base"
                        (Some (P "/repo/nested"))
   = Return (Path_of_string "../base")
   /\ is_absolute (Path_of_string "../base") = false)
  /\ _expand_parent_colon tree_env (P "/repo/nested/profiles/x/parent") ":feat"
                          (Some (P "/repo/nested"))
     = Return (P "/repo/nested/profiles/feat")
  /\ _expand_parent_colon tree_env (P "/repo/nested/profiles/x/parent") "gentoo:arch"
                          (Some (P "/repo/nested"))
     = Return (P "/repo/profiles/arch")
  /\ _expand_parent_colon tree_env (P "/repo/nested/profiles/x/parent") "nowhere:arch"
                          (Some (P "/repo/nested"))
     = Raise (ParseError (ParentRefNotFound "nowhere:arch"
                                            (P "/repo/nested/profiles/x/parent"))).
Proof.
  pose proof (C7_expand_parent_colon tree_env (P "/repo/nested/profiles/x/parent")
                (Some (P "/repo/nested"))) as [Hplain [Hself Hnamed]].
  split; [|split; [|split]].
  - destruct (Hplain "../base"%string eq_refl) as [Hret Hrel]. split.
    + exact Hret.
    + apply Hrel. reflexivity.
  - exact (Hself "feat"%string).
  - apply (Hnamed "gentoo"%string "arch"%string); [discriminate | reflexivity].
  - apply (Hnamed "nowhere"%string "arch"%string); [discriminate | reflexivity].
Defined.

(** The claim C7 fails for a sub-path that begins with the separator:
    the join drops the repository location and [profiles], so the
    reference expands to the sub-path itself, outside the repository. *)
Lemma C7_anchored_subpath_is_not_under_profiles :
  _expand_parent_colon tree_env (P "/repo/nested/profiles/x/parent") ":/etc/passwd"
                       (Some (P "/repo/nested"))
  = Return (P "/etc/passwd")
  /\ _expand_parent_colon tree_env (P "/repo/nested/profiles/x/parent") "gentoo:/x"
                          (Some (P "/repo/nested"))
     = Return (P "/x")
  /\ P "/etc/passwd"
     <> normalize_path tree_env
          {| is_absolute := true;
             segs := segs (P "/repo/nested") ++ "profiles" :: segs (P "/etc/passwd") |}
  /\ is_relative_to (P "/etc/passwd") (P "/repo/nested") = false.
Proof.
  split; [vm_compute; reflexivity |]. split; [vm_compute; reflexivity |].
  split; [vm_compute; discriminate | vm_compute; reflexivity].
Qed.

(** C6 on the code.  The re-resolution of line 263 is [absolute()],
    which returns an anchored path as it is.  The profile [y] lists the
    parent [../link], a symbolic link to [base].  The joined path is
    anchored, so it is re-resolved, and stays the link, while its
    canonical form is [base].  The link, not its canonical form, is
    what is visited and recorded in the stack. *)
Theorem C6_absolute_is_not_canonical :
  (forall fs s,
      Path_absolute fs {| is_absolute := true; segs := s |}
      = {| is_absolute := true; segs := s |})
  /\ parent_edge tree_env linked_fs tree_known (P "/repo/profiles/y") "../link"
     = Return {| joined := P "/repo/profiles/link";
                 reresolved := true;
                 target := P "/repo/profiles/link" |}
  /\ Path_resolve linked_fs (P "/repo/profiles/link") = P "/repo/profiles/base"
  /\ exists st',
       _addProfile tree_env linked_fs 2 (P "/repo/profiles/y") tree_known []
                   (empty_state []) = Done st'
       /\ profiles st' = [P "/repo/profiles/link"; P "/repo/profiles/y"].
Proof.
  split; [reflexivity |].
  split; [vm_compute; reflexivity |]. split; [vm_compute; reflexivity |].
  eexists. split; vm_compute; reflexivity.
Qed.

Lemma addParents_app (env : Collab) (fs : FS) (visit : Path -> state -> outcome)
    (currentPath parentsFile : Path) (repo_loc : option Path) (colon : bool)
    (before rest : list string) (st : state) :
  addParents env fs visit currentPath parentsFile repo_loc colon (before ++ rest) st
  = match addParents env fs visit currentPath parentsFile repo_loc colon before st with
    | Done st' =>
        addParents env fs visit currentPath parentsFile repo_loc colon rest st'
    | Raised e st' => Raised e st'
    | Diverged => Diverged
    end.
Proof.
  revert st. induction before as [|ref before IH]; intros st; simpl; [reflexivity |].
  destruct (step_parent env fs currentPath parentsFile repo_loc colon ref) as [step|e];
    [|reflexivity].
  destruct (path_exists fs (target step)); [|reflexivity].
  destruct (visit (target step) st); auto.
Qed.

Lemma addParents_done_all (env : Collab) (fs : FS) (visit : Path -> state -> outcome)
    (currentPath parentsFile : Path) (repo_loc : option Path) (colon : bool)
    (parents : list string) :
  forall st st',
    addParents env fs visit currentPath parentsFile repo_loc colon parents st = Done st' ->
    forall ref, In ref parents ->
      exists step,
        step_parent env fs currentPath parentsFile repo_loc colon ref = Return step
        /\ path_exists fs (target step) = true.
Proof.
  induction parents as [|r rest IH]; intros st st' Hdone ref Hin; [destruct Hin |].
  simpl in Hdone.
  destruct (step_parent env fs currentPath parentsFile repo_loc colon r) as [step|e]
    eqn:Hstep; [|discriminate].
  destruct (path_exists fs (target step)) eqn:Htarget; [|discriminate].
  destruct (visit (target step) st) as [s1|e s1|]; try discriminate.
  destruct Hin as [<- | Hin]; [eauto | eapply IH; eassumption].
Qed.

(** A call that returns found its parent file, if any, non-empty and
    every target listed there present. *)
Lemma _addProfile_done_parents (env : Collab) (fs : FS) (fuel : nat) (currentPath : Path)
    (known_repos previous_repos : list known_repo) (st st' : state) :
  _addProfile env fs fuel currentPath known_repos previous_repos st = Done st' ->
  path_exists fs (child currentPath "parent") = true ->
  grabfile fs (child currentPath "parent") <> []
  /\ forall ref, In ref (grabfile fs (child currentPath "parent")) ->
       exists step,
         parent_edge env fs known_repos currentPath ref = Return step
         /\ path_exists fs (target step) = true.
Proof.
  destruct fuel as [|fuel]; [discriminate |].
  rewrite _addProfile_unfold. cbv zeta. intros Hdone Hex. rewrite Hex in Hdone.
  destruct (resolve_eapi env fs currentPath _) as [e|err]; [|discriminate].
  destruct (legacy_scan env fs currentPath _ e st) as [st1|err]; [|discriminate].
  destruct (grabfile fs (child currentPath "parent")) as [|r rest]; [discriminate |].
  split; [discriminate |].
  destruct (addParents env fs _ currentPath _ _ _ (r :: rest) st1)
    as [st2|err st2|] eqn:Hloop; try discriminate.
  intros ref Hin. exact (addParents_done_all _ _ _ _ _ _ _ _ _ _ Hloop ref Hin).
Qed.

(** C8.  At a node with a [parent] file, a call never returns when the
    file yields no line, nor when the target of one of its references
    does not exist.  When the node's EAPI is accepted and its directory
    scanned, the empty file makes the call fail with the [ParseError]
    naming the parent file; and when the references listed before
    [ref] have been resolved, the missing target of [ref] makes it fail
    with the [ParseError] naming that target and the parent file. *)
Theorem C8_parent_file_errors (env : Collab) (fs : FS) (currentPath : Path)
    (known_repos previous_repos : list known_repo) (st : state) :
  path_exists fs (child currentPath "parent") = true ->
  (grabfile fs (child currentPath "parent") = [] ->
   (forall fuel st',
       _addProfile env fs fuel currentPath known_repos previous_repos st <> Done st')
   /\ forall fuel e st1,
        resolve_eapi env fs currentPath (matched_repo fs known_repos currentPath)
        = Return e ->
        legacy_scan env fs currentPath (matched_repo fs known_repos currentPath) e st
        = Return st1 ->
        _addProfile env fs (S fuel) currentPath known_repos previous_repos st
        = Raised (ParseError (EmptyParentFile (child currentPath "parent"))) st1)
  /\ forall ref step,
       In ref (grabfile fs (child currentPath "parent")) ->
       parent_edge env fs known_repos currentPath ref = Return step ->
       path_exists fs (target step) = false ->
       (forall fuel st',
           _addProfile env fs fuel currentPath known_repos previous_repos st <> Done st')
       /\ forall fuel e st1 before after st2,
            resolve_eapi env fs currentPath (matched_repo fs known_repos currentPath)
            = Return e ->
            legacy_scan env fs currentPath (matched_repo fs known_repos currentPath) e st
            = Return st1 ->
            grabfile fs (child currentPath "parent") = before ++ ref :: after ->
            addParents env fs
              (fun p s => _addProfile env fs fuel p known_repos
                            (intersecting fs known_repos currentPath) s)
              currentPath (child currentPath "parent")
              (repo_loc_of (matched_repo fs known_repos currentPath))
              (allow_parent_colon_of (matched_repo fs known_repos currentPath))
              before st1 = Done st2 ->
            _addProfile env fs (S fuel) currentPath known_repos previous_repos st
            = Raised (ParseError (ParentNotFound (target step)
                                                 (child currentPath "parent"))) st2.
Proof.
  intros Hex. split.
  - intros Hgrab. split.
    + intros fuel st' Hdone.
      now destruct (_addProfile_done_parents _ _ _ _ _ _ _ _ Hdone Hex).
    + intros fuel e st1 Heapi Hscan. rewrite _addProfile_unfold. cbv zeta.
      now rewrite Heapi, Hscan, Hex, Hgrab.
  - intros ref step Hin Hstep Htarget. split.
    + intros fuel st' Hdone.
      destruct (_addProfile_done_parents _ _ _ _ _ _ _ _ Hdone Hex) as [_ Hall].
      destruct (Hall ref Hin) as [step' [Hstep' Htarget']]. congruence.
    + intros fuel e st1 before after st2 Heapi Hscan Hgrab Hbefore.
      rewrite _addProfile_unfold. cbv zeta.
      rewrite Heapi, Hscan, Hex, Hgrab, addParents_app, Hbefore.
      unfold parent_edge in Hstep. simpl. rewrite Hstep, Htarget.
      destruct before; reflexivity.
Qed.

Lemma C8_parent_file_errors_witness :
  _addProfile sync_env broken_fs 1 (P "/repo/profiles/bad")
              (build_known_repos sync_env broken_fs [P "/repo"]) [] (empty_state [])
  = Raised (ParseError (EmptyParentFile (P "/repo/profiles/bad/parent")))
           (empty_state [])
  /\ (forall fuel st',
         _addProfile tree_env dangling_fs fuel (P "/repo/profiles/d") tree_known []
                     (empty_state []) <> Done st')
  /\ exists st2,
       profiles st2 = [P "/repo/profiles/base"]
       /\ _addProfile tree_env dangling_fs 2 (P "/repo/profiles/d") tree_known []
                      (empty_state [])
          = Raised (ParseError (ParentNotFound (P "/repo/profiles/missing")
                                               (P "/repo/profiles/d/parent"))) st2.
Proof.
  split; [|split].
  - apply (proj2 (proj1 (C8_parent_file_errors sync_env broken_fs
                           (P "/repo/profiles/bad")
                           (build_known_repos sync_env broken_fs [P "/repo"]) []
                           (empty_state []) eq_refl) eq_refl)
                 0 "7"%string (empty_state []));
      reflexivity.
  - apply (proj1 (proj2 (C8_parent_file_errors tree_env dangling_fs
                           (P "/repo/profiles/d") tree_known [] (empty_state [])
                           eq_refl)
                        "../missing"%string
                        {| joined := P "/repo/profiles/missing";
                           reresolved := true;
                           target := P "/repo/profiles/missing" |}
                        (or_intror (or_introl eq_refl)) eq_refl eq_refl)).
  - eexists. split.
    2: { apply (proj2 (proj2 (C8_parent_file_errors tree_env dangling_fs
                                (P "/repo/profiles/d") tree_known [] (empty_state [])
                                eq_refl)
                             "../missing"%string
                             {| joined := P "/repo/profiles/missing";
                                reresolved := true;
                                target := P "/repo/profiles/missing" |}
                             (or_intror (or_introl eq_refl)) eq_refl eq_refl))
           with (e := "7"%string) (before := ["../base"%string]) (after := @nil string)
                (st1 := empty_state []).
         - reflexivity.
         - reflexivity.
         - reflexivity.
         - vm_compute. reflexivity. }
    reflexivity.
Defined.

(* ================================================================== *)
(** ** The legacy-layout advisory *)

Section Advisory.

Variable env : Collab.
Variable fs : FS.

Lemma silence_append (a b : state) (p : Path) (n : _profile_node) :
  silence a = silence b -> silence (append_node a p n) = silence (append_node b p n).
Proof.
  unfold silence, append_node. simpl. intros H. injection H as Hp Hc.
  now rewrite Hp, Hc.
Qed.

Lemma legacy_offenders_quiet (currentPath : Path) :
  legacy_offenders (quiet fs) currentPath [] = [].
Proof. reflexivity. Qed.

Lemma legacy_scan_quiet (currentPath : Path) (m : option known_repo) (e : string)
    (st st' : state) :
  silence st = silence st' ->
  match legacy_scan env fs currentPath m e st,
        legacy_scan env (quiet fs) currentPath m e st' with
  | Return a, Return b => silence a = silence b
  | Raise x, Raise y => x = y
  | _, _ => False
  end.
Proof.
  intros H. unfold legacy_scan.
  destruct (compat_mode_of env m e); [|assumption].
  simpl listdir. destruct (listdir fs currentPath) as [names|]; simpl option_map;
    [|reflexivity].
  cbv iota beta. rewrite legacy_offenders_quiet.
  destruct (legacy_offenders fs currentPath names); assumption.
Qed.

Lemma addParents_quiet (visit visitq : Path -> state -> outcome)
    (currentPath parentsFile : Path) (repo_loc : option Path) (colon : bool) :
  (forall p s s', silence s = silence s' ->
                  silenced (visit p s) = silenced (visitq p s')) ->
  forall parents st st',
    silence st = silence st' ->
    silenced (addParents env fs visit currentPath parentsFile repo_loc colon parents st)
    = silenced (addParents env (quiet fs) visitq currentPath parentsFile repo_loc colon
                           parents st').
Proof.
  intros Hvisit parents.
  induction parents as [|ref rest IH]; intros st st' Hst; simpl.
  - now rewrite Hst.
  - change (step_parent env (quiet fs)) with (step_parent env fs).
    destruct (step_parent env fs currentPath parentsFile repo_loc colon ref)
      as [step|err]; simpl; [|now rewrite Hst].
    destruct (path_exists fs (target step)); simpl; [|now rewrite Hst].
    specialize (Hvisit (target step) st st' Hst).
    destruct (visit (target step) st) as [a|ea a|],
             (visitq (target step) st') as [b|eb b|];
      cbn [silenced] in *; try discriminate; try assumption.
    apply IH. congruence.
Qed.

Lemma _addProfile_quiet (fuel : nat) :
  forall currentPath known_repos previous_repos st st',
    silence st = silence st' ->
    silenced (_addProfile env fs fuel currentPath known_repos previous_repos st)
    = silenced (_addProfile env (quiet fs) fuel currentPath known_repos
                            previous_repos st').
Proof.
  induction fuel as [|fuel IH];
    intros currentPath known_repos previous_repos st st' Hst; [reflexivity |].
  rewrite !_addProfile_unfold. cbv zeta.
  change (matched_repo (quiet fs)) with (matched_repo fs).
  change (intersecting (quiet fs)) with (intersecting fs).
  change (resolve_eapi env (quiet fs)) with (resolve_eapi env fs).
  change (path_exists (quiet fs)) with (path_exists fs).
  change (grabfile (quiet fs)) with (grabfile fs).
  destruct (resolve_eapi env fs currentPath _) as [e|err]; simpl;
    [|now rewrite Hst].
  pose proof (legacy_scan_quiet currentPath
                (matched_repo fs known_repos currentPath) e st st' Hst) as Hscan.
  destruct (legacy_scan env fs currentPath _ e st) as [a|ea],
           (legacy_scan env (quiet fs) currentPath _ e st') as [b|eb];
    try contradiction; [|simpl; now rewrite Hscan, Hst].
  destruct (path_exists fs (child currentPath "parent")).
  - destruct (grabfile fs (child currentPath "parent")) as [|ref rest];
      [simpl; now rewrite Hscan |].
    pose proof (addParents_quiet
                  (fun p s => _addProfile env fs fuel p known_repos
                                (intersecting fs known_repos currentPath) s)
                  (fun p s => _addProfile env (quiet fs) fuel p known_repos
                                (intersecting fs known_repos currentPath) s)
                  currentPath (child currentPath "parent")
                  (repo_loc_of (matched_repo fs known_repos currentPath))
                  (allow_parent_colon_of (matched_repo fs known_repos currentPath))
                  (fun p s s' H => IH p known_repos _ s s' H)
                  (ref :: rest) a b Hscan) as Hloop.
    destruct (addParents env fs _ currentPath _ _ _ (ref :: rest) a) as [a2|ea2 a2|],
             (addParents env (quiet fs) _ currentPath _ _ _ (ref :: rest) b)
               as [b2|eb2 b2|];
      cbn [silenced] in *; try discriminate; try assumption.
    f_equal. apply silence_append. congruence.
  - cbn [silenced]. f_equal. now apply silence_append.
Qed.

End Advisory.

(** C5, as the code has it.  At a node in compatibility mode whose
    directory holds legacy names as directories, the advisory is
    emitted whatever the previous node's repositories are, hence also
    when the node's [show_deprecated_warning] is false: that flag is
    only recorded on the node.  The advisory does not affect resolution:
    profiles, nodes and errors are those obtained on the same tree with
    nothing for the scan to find. *)
Theorem C5_advisory_not_gated (env : Collab) (fs : FS) (fuel : nat) (currentPath : Path)
    (known_repos previous_repos : list known_repo) (st : state) :
  (forall e names,
      resolve_eapi env fs currentPath (matched_repo fs known_repos currentPath)
      = Return e ->
      compat_mode_of env (matched_repo fs known_repos currentPath) e = true ->
      listdir fs currentPath = Some names ->
      legacy_offenders fs currentPath names <> [] ->
      leaves (_addProfile env fs (S fuel) currentPath known_repos previous_repos st)
             (fun st' => exists more,
                  messages st'
                  = messages st
                    ++ Warn_portage1_format currentPath
                         (repo_loc_of (matched_repo fs known_repos currentPath))
                         (legacy_offenders fs currentPath names) :: more))
  /\ silenced (_addProfile env fs fuel currentPath known_repos previous_repos st)
     = silenced (_addProfile env (quiet fs) fuel currentPath known_repos
                             previous_repos st).
Proof.
  split; [|now apply _addProfile_quiet].
  intros e names Heapi Hcompat Hlist Hoff.
  rewrite _addProfile_unfold. cbv zeta. rewrite Heapi.
  unfold legacy_scan. rewrite Hcompat, Hlist.
  destruct (legacy_offenders fs currentPath names) as [|o offenders] eqn:Hoffenders;
    [congruence |].
  set (st1 := emit st _).
  assert (Hgrow : forall o', leaves o' (fun s => exists more,
                                           messages s = messages st1 ++ more) ->
                             leaves o' (fun st' => exists more,
                                           messages st'
                                           = messages st
                                             ++ Warn_portage1_format currentPath
                                                  (repo_loc_of
                                                     (matched_repo fs known_repos
                                                                   currentPath))
                                                  (o :: offenders) :: more)).
  { intros [s|err s|]; simpl; auto; intros [more ->];
      exists more; now rewrite <- app_assoc. }
  apply Hgrow. clear Hgrow.
  destruct (path_exists fs (child currentPath "parent")).
  - destruct (grabfile fs (child currentPath "parent")) as [|ref rest].
    + simpl. exists []. now rewrite app_nil_r.
    + pose proof (addParents_rel env fs
                    (fun a b => exists more, messages b = messages a ++ more)) as Hrel.
      specialize (Hrel ltac:(intros a; exists []; now rewrite app_nil_r)).
      specialize (Hrel ltac:(intros a b c [m1 H1] [m2 H2]; exists (m1 ++ m2);
                             now rewrite H2, H1, app_assoc)).
      specialize (Hrel (fun p s => _addProfile env fs fuel p known_repos
                                     (intersecting fs known_repos currentPath) s)
                       currentPath (child currentPath "parent")
                       (repo_loc_of (matched_repo fs known_repos currentPath))
                       (allow_parent_colon_of (matched_repo fs known_repos currentPath))
                       (fun p s => _addProfile_messages env fs fuel p known_repos _ s)
                       (ref :: rest) st1).
      destruct (addParents env fs _ currentPath _ _ _ (ref :: rest) st1)
        as [st2|err st2|]; cbn [leaves] in *; solve [exact Hrel | exact I].
  - simpl. exists []. now rewrite app_nil_r.
Qed.

Lemma C5_advisory_not_gated_witness :
  show_deprecated_warning_of legacy_known
    (intersecting legacy_fs legacy_known (P "/repo/profiles/base")) = false
  /\ leaves (_addProfile legacy_env legacy_fs 1 (P "/repo/profiles/base")
                         legacy_known legacy_known (empty_state []))
            (fun st' => exists more,
                 messages st'
                 = messages (empty_state [])
                   ++ Warn_portage1_format (P "/repo/profiles/base")
                        (repo_loc_of (matched_repo legacy_fs legacy_known
                                                   (P "/repo/profiles/base")))
                        (legacy_offenders legacy_fs (P "/repo/profiles/base")
                                          ["package.mask"]) :: more).
Proof.
  split; [reflexivity |].
  apply (proj1 (C5_advisory_not_gated legacy_env legacy_fs 0 (P "/repo/profiles/base")
                  legacy_known legacy_known (empty_state []))
               "5" ["package.mask"]).
  - reflexivity.
  - reflexivity.
  - reflexivity.
  - vm_compute. discriminate.
Defined.

(** The claim C5 fails in the sample repository: [base] is reached
    from [top] of the same repository, so its [show_deprecated_warning]
    is false, and the advisory is emitted for it all the same, a second
    time in the traversal. *)
Lemma C5_advisory_repeated_within_repository :
  exists st',
    _addProfile legacy_env legacy_fs 2 (P "/repo/profiles/top") legacy_known []
                (empty_state []) = Done st'
    /\ map (fun n => (path n, show_deprecated_warning n)) (profiles_complex st')
       = [(P "/repo/profiles/base", false); (P "/repo/profiles/top", true)]
    /\ messages st'
       = [Warn_portage1_format (P "/repo/profiles/top") (Some (P "/repo"))
                               ["package.mask"];
          Warn_portage1_format (P "/repo/profiles/base") (Some (P "/repo"))
                               ["package.mask"]].
Proof. eexists. repeat split; vm_compute; reflexivity. Qed.

(* ================================================================== *)
(** ** Loading the profiles *)

Lemma lockstep_empty (msgs : list message) : lockstep (empty_state msgs).
Proof. split; [reflexivity | constructor]. Qed.

Lemma resolve_top_lockstep (env : Collab) (fs : FS) (fuel : nat)
    (known_repos : list known_repo) (pp : option PyVal) (msgs : list message)
    (st : state) :
  resolve_top env fs fuel known_repos pp msgs = Done st -> lockstep st.
Proof.
  unfold resolve_top.
  destruct pp as [v|]; [|intros H; injection H as <-; apply lockstep_empty].
  destruct (py_truthy v); [|intros H; injection H as <-; apply lockstep_empty].
  pose proof (_addProfile_lockstep env fs fuel (Path_resolve fs (Path_of_pyval v))
                known_repos [] (empty_state msgs) (lockstep_empty msgs)) as Hrun.
  destruct (_addProfile env fs fuel _ known_repos [] (empty_state msgs))
    as [s|e s|]; simpl in Hrun.
  - intros H. now injection H as <-.
  - destruct e; try discriminate. intros H. injection H as <-. apply lockstep_empty.
  - discriminate.
Qed.

(** C3, as the code has it.  A [ParseError] raised by the top-level
    resolution is caught by [load_profiles] whether or not the sync
    mode is on: the call returns with empty [profiles] and
    [profiles_complex] and without a user profile.  The sync mode only
    decides whether the two diagnostics are written. *)
Theorem C3_parse_error_caught (env : Collab) (fs : FS) (fuel : nat)
    (self : LocationsManager) (known_repository_paths : list Path)
    (v : PyVal) (msgs : list message) (e : parse_error) (st : state) :
  select_profile_path env fs self = (Some v, msgs) ->
  py_truthy v = true ->
  _addProfile env fs fuel (Path_resolve fs (Path_of_pyval v))
              (build_known_repos env fs known_repository_paths) []
              (empty_state msgs) = Raised (ParseError e) st ->
  load_profiles env fs fuel self known_repository_paths
  = Loaded {| profile_path := Some v;
              user_profile_dir := None;
              final := empty_state
                         (messages st
                          ++ if _sync_mode env then []
                             else [Msg_unable_to_parse v; Msg_parse_error e]) |}.
Proof.
  intros Hsel Htruthy Hrun. unfold load_profiles. rewrite Hsel.
  unfold resolve_top. rewrite Htruthy, Hrun.
  unfold add_user_profile. simpl. now destruct (_user_config self).
Qed.

Lemma C3_parse_error_caught_witness :
  load_profiles sync_env broken_fs 1 broken_manager [P "/repo"]
  = Loaded {| profile_path := Some (PPath (P "/repo/profiles/bad"));
              user_profile_dir := None;
              final := empty_state [] |}
  /\ load_profiles tree_env broken_fs 1 broken_manager [P "/repo"]
     = Loaded {| profile_path := Some (PPath (P "/repo/profiles/bad"));
                 user_profile_dir := None;
                 final := empty_state
                            [Msg_unable_to_parse (PPath (P "/repo/profiles/bad"));
                             Msg_parse_error
                               (EmptyParentFile (P "/repo/profiles/bad/parent"))] |}.
Proof.
  split.
  - apply (C3_parse_error_caught sync_env broken_fs 1 broken_manager [P "/repo"]
             (PPath (P "/repo/profiles/bad")) []
             (EmptyParentFile (P "/repo/profiles/bad/parent")) (empty_state []));
      reflexivity.
  - apply (C3_parse_error_caught tree_env broken_fs 1 broken_manager [P "/repo"]
             (PPath (P "/repo/profiles/bad")) []
             (EmptyParentFile (P "/repo/profiles/bad/parent")) (empty_state []));
      reflexivity.
Defined.

(** The claim C3 fails in sync mode: the top-level resolution raises a
    [ParseError], and [load_profiles] returns with an empty stack
    instead of raising. *)
Lemma C3_sync_mode_does_not_propagate :
  _sync_mode sync_env = true
  /\ _addProfile sync_env broken_fs 1 (Path_resolve broken_fs (P "/repo/profiles/bad"))
                 (build_known_repos sync_env broken_fs [P "/repo"]) []
                 (empty_state [])
     = Raised (ParseError (EmptyParentFile (P "/repo/profiles/bad/parent")))
              (empty_state [])
  /\ load_profiles sync_env broken_fs 1 broken_manager [P "/repo"]
     = Loaded {| profile_path := Some (PPath (P "/repo/profiles/bad"));
                 user_profile_dir := None;
                 final := empty_state [] |}.
Proof. repeat split. Qed.

Lemma add_user_profile_cases (env : Collab) (fs : FS) (self : LocationsManager)
    (st : state) :
  add_user_profile env fs self st = (None, st)
  \/ exists d n,
       add_user_profile env fs self st = (Some d, append_node st d n)
       /\ is_user_profile n = true /\ path n = d.
Proof.
  unfold add_user_profile.
  destruct (_user_config self); [|now left].
  destruct (profiles st); [now left |].
  destruct (path_exists fs _); [|now left].
  right. eexists _, _. repeat split.
Qed.

(** C10.  After a call of [load_profiles] that returns, [profiles] and
    [profiles_complex] have the same length and the i-th profile is the
    path of the i-th node.  Without a user profile directory no node is
    a user profile; with one, the last node is that directory's, is the
    only one marked as user profile, and every node before it is not. *)
Theorem C10_profiles_in_lockstep (env : Collab) (fs : FS) (fuel : nat)
    (self : LocationsManager) (known_repository_paths : list Path) (r : loaded) :
  load_profiles env fs fuel self known_repository_paths = Loaded r ->
  List.length (profiles (final r)) = List.length (profiles_complex (final r))
  /\ (forall i, nth_error (profiles (final r)) i
                = option_map path (nth_error (profiles_complex (final r)) i))
  /\ (user_profile_dir r = None ->
      Forall (fun n => is_user_profile n = false) (profiles_complex (final r)))
  /\ (forall d, user_profile_dir r = Some d ->
        exists init n,
          profiles_complex (final r) = init ++ [n]
          /\ Forall (fun x => is_user_profile x = false) init
          /\ is_user_profile n = true
          /\ path n = d).
Proof.
  unfold load_profiles.
  destruct (select_profile_path env fs self) as [pp msgs].
  destruct (resolve_top env fs fuel _ pp msgs) as [st|e st|] eqn:Htop;
    try discriminate.
  apply resolve_top_lockstep in Htop as [Hmap Hall].
  assert (Hpaths : forall s, map path (profiles_complex s) = profiles s ->
            List.length (profiles s) = List.length (profiles_complex s)
            /\ forall i, nth_error (profiles s) i
                         = option_map path (nth_error (profiles_complex s) i)).
  { intros s Hs. rewrite <- Hs. split.
    - apply length_map.
    - intros i. apply nth_error_map. }
  destruct (Hpaths st Hmap) as [Hlen Hnth].
  destruct (add_user_profile_cases env fs self st) as [Hnone | [d [n [Hsome [Hu Hp]]]]].
  - rewrite Hnone. intros H. injection H as <-. simpl.
    repeat split; auto. discriminate.
  - rewrite Hsome. intros H. injection H as <-. simpl.
    destruct (Hpaths (append_node st d n)) as [Hlen' Hnth'].
    { simpl. now rewrite map_app, Hmap, <- Hp. }
    simpl in Hlen', Hnth'. repeat split; auto; try discriminate.
    intros d' Hd. injection Hd as <-.
    exists (profiles_complex st), n. auto.
Qed.

Lemma C10_profiles_in_lockstep_witness :
  exists r,
    load_profiles tree_env tree_fs 3 tree_manager [P "/repo"; P "/repo/nested"] = Loaded r
    /\ List.length (profiles (final r)) = 5
    /\ List.length (profiles (final r)) = List.length (profiles_complex (final r))
    /\ (forall i, nth_error (profiles (final r)) i
                  = option_map path (nth_error (profiles_complex (final r)) i))
    /\ exists init n,
         profiles_complex (final r) = init ++ [n]
         /\ Forall (fun x => is_user_profile x = false) init
         /\ is_user_profile n = true
         /\ path n = P "/etc/portage/profile".
Proof.
  eexists. split; [vm_compute; reflexivity |]. split; [reflexivity |].
  match goal with
  | |- context [final ?r] =>
      destruct (C10_profiles_in_lockstep tree_env tree_fs 3 tree_manager
                  [P "/repo"; P "/repo/nested"] r eq_refl)
        as [Hlen [Hnth [_ Huser]]]
  end.
  split; [exact Hlen |]. split; [exact Hnth |].
  apply Huser. reflexivity.
Defined.

(* ================================================================== *)
(** ** The root override *)

(** A [sysroot] given to the constructor is stored as a [Path], which
    differs from the string ["/"] whatever it denotes. *)
Lemma init_sysroot_explicit_is_not_str (env : Collab) (fs : FS) (v : PyVal) :
  py_ne (init_sysroot env fs (Some v)) (PStr "/") = true.
Proof. reflexivity. Qed.

(** With a target root given as a path, [InvalidLocation] is raised
    exactly when both comparisons of line 319 succeed. *)
Lemma set_root_override_invalid_location (env : Collab) (fs : FS)
    (self : LocationsManager) (root_overwrite : option PyVal) (p : Path) :
  target_root self = Some (PPath p) ->
  snd (set_root_override env fs self root_overwrite)
  = Raise (InvalidLocation (sysroot self))
  <-> py_ne (sysroot self) (PStr "/") = true
      /\ py_ne (sysroot self) (PPath (normalize_path env (Path_resolve fs p))) = true.
Proof.
  intros Ht. unfold set_root_override. rewrite Ht. simpl.
  destruct (py_ne (sysroot self) (PStr "/")); simpl.
  - destruct (py_ne (sysroot self) (PPath (normalize_path env (Path_resolve fs p))));
      simpl; [tauto |].
    destruct (is_dir fs (normalize_path env (Path_resolve fs p))); simpl;
      split; (discriminate || intros [_ H]; discriminate).
  - destruct (is_dir fs (normalize_path env (Path_resolve fs p))); simpl;
      split; (discriminate || intros [H _]; discriminate).
Qed.

(** C9 on the code.  A manager built with the explicit sysroot ["/"]
    and the target root [/foo] stores the path [/] as its sysroot;
    [set_root_override] then raises [InvalidLocation], because the
    stored path is compared with the string ["/"].  The same call on a
    manager built without a sysroot returns. *)
Theorem C9_explicit_root_sysroot_rejected :
  sysroot explicit_sysroot_manager = PPath (P "/")
  /\ set_root_override tree_env root_fs explicit_sysroot_manager None
     = ([Msg_sysroot_mismatch (PPath (P "/")) (P "/foo")],
        Raise (InvalidLocation (PPath (P "/"))))
  /\ set_root_override tree_env root_fs default_sysroot_manager None
     = ([], Return (P "/foo")).
Proof.
  split; [reflexivity |].
  split.
  - unfold set_root_override. vm_compute. reflexivity.
  - unfold set_root_override. vm_compute. reflexivity.
Qed.

(* ================================================================== *)
(** ** Further properties of repository attribution *)

Lemma dedup_In (x : Path) (l : list Path) : In x (dedup l) <-> In x l.
Proof.
  induction l as [|y l IH]; simpl; [tauto |].
  destruct (Path_in y l) eqn:Hy.
  - rewrite IH. split; [auto |]. intros [<- | H]; [|assumption].
    now apply Path_in_spec.
  - simpl. rewrite IH. tauto.
Qed.

Lemma dedup_NoDup (l : list Path) : NoDup (dedup l).
Proof.
  induction l as [|y l IH]; simpl; [constructor |].
  destruct (Path_in y l) eqn:Hy; [assumption |].
  constructor; [|assumption].
  rewrite dedup_In. intros Hin. apply Path_in_spec in Hin. congruence.
Qed.

(** The known repositories are built from a set of locations. *)
Lemma build_known_repos_NoDup (env : Collab) (fs : FS) (paths : list Path) :
  NoDup (map fst (build_known_repos env fs paths)).
Proof.
  unfold build_known_repos. rewrite map_map. simpl. rewrite map_id.
  apply dedup_NoDup.
Qed.

Lemma NoDup_map_fst_inj (A B : Type) (l : list (A * B)) (a b : A * B) :
  NoDup (map fst l) -> In a l -> In b l -> fst a = fst b -> a = b.
Proof.
  induction l as [|x l IH]; simpl; intros Hnd Ha Hb Hab; [destruct Ha |].
  inversion Hnd as [|? ? Hnotin Hnd']; subst.
  destruct Ha as [-> | Ha], Hb as [-> | Hb]; auto.
  - exfalso. apply Hnotin. rewrite Hab. now apply in_map.
  - exfalso. apply Hnotin. rewrite <- Hab. now apply in_map.
Qed.

Lemma seg_prefix_same_length (a b p : list string) :
  seg_prefix a p = true -> seg_prefix b p = true ->
  List.length a = List.length b -> a = b.
Proof.
  revert b p. induction a as [|x a IH]; intros [|y b] [|z p]; simpl;
    try discriminate; try reflexivity.
  intros Ha Hb Hlen.
  apply andb_true_iff in Ha as [Hx Ha]. apply andb_true_iff in Hb as [Hy Hb].
  apply String.eqb_eq in Hx, Hy. subst.
  f_equal. apply (IH b p); auto.
Qed.

(** Two locations that contain the same path and have as many parts
    are the same location. *)
Lemma containing_same_length (p a b : Path) :
  is_relative_to p a = true -> is_relative_to p b = true ->
  List.length (parts a) = List.length (parts b) -> a = b.
Proof.
  unfold is_relative_to, parts. intros Ha Hb Hlen.
  apply andb_true_iff in Ha as [Haa Hsa]. apply andb_true_iff in Hb as [Hab Hsb].
  apply eqb_prop in Haa, Hab.
  destruct a as [aa sa], b as [ab sb]. simpl in *. subst aa ab.
  f_equal. apply (seg_prefix_same_length sa sb (segs p)); auto.
  rewrite !length_app in Hlen. lia.
Qed.

(** X1.  Among the known repositories built by [load_profiles], the one
    a path is attributed to has strictly more parts than every other
    repository containing the path: the choice never depends on a tie. *)
Theorem X1_attribution_strictly_longest (env : Collab) (fs : FS) (paths : list Path)
    (currentPath : Path) (r y : known_repo) :
  matched_repo fs (build_known_repos env fs paths) currentPath = Some r ->
  In y (build_known_repos env fs paths) ->
  is_relative_to (Path_resolve fs currentPath) (fst y) = true ->
  y <> r ->
  (List.length (parts (fst y)) < List.length (parts (fst r)))%nat.
Proof.
  intros Hm Hy Hrel Hne.
  apply matched_repo_some in Hm as [Hr [Hrelr Hmax]].
  specialize (Hmax y Hy Hrel). unfold parts_len in Hmax.
  destruct (Nat.eq_dec (List.length (parts (fst y))) (List.length (parts (fst r))))
    as [Heq | Hneq]; [|lia].
  exfalso. apply Hne.
  apply (NoDup_map_fst_inj _ _ (build_known_repos env fs paths)); auto.
  - apply build_known_repos_NoDup.
  - apply (containing_same_length (Path_resolve fs currentPath)); auto.
Qed.

Lemma X1_attribution_strictly_longest_witness :
  (List.length (parts (P "/repo")) < List.length (parts (P "/repo/nested")))%nat.
Proof.
  apply (X1_attribution_strictly_longest tree_env tree_fs [P "/repo"; P "/repo/nested"]
           (P "/repo/nested/profiles/x")
           (P "/repo/nested", layout ["portage-2"; "build-id"] None)
           (P "/repo", layout ["portage-2"] (Some "7"))).
  - reflexivity.
  - left. reflexivity.
  - reflexivity.
  - discriminate.
Defined.

(** X2.  The attribution does not depend on the order in which the set
    of known repositories is iterated. *)
Theorem X2_attribution_order_independent (fs : FS) (known_repos known_repos' : list known_repo)
    (currentPath : Path) :
  NoDup (map fst known_repos) ->
  Permutation known_repos known_repos' ->
  matched_repo fs known_repos currentPath = matched_repo fs known_repos' currentPath.
Proof.
  intros Hnd Hperm.
  destruct (matched_repo fs known_repos currentPath) as [r|] eqn:Hm;
    destruct (matched_repo fs known_repos' currentPath) as [r'|] eqn:Hm';
    try reflexivity.
  - apply matched_repo_some in Hm as [Hr [Hrel Hmax]].
    apply matched_repo_some in Hm' as [Hr' [Hrel' Hmax']].
    assert (Hr2 : In r' known_repos)
      by (eapply Permutation_in; [apply Permutation_sym |]; eassumption).
    assert (Hr3 : In r known_repos') by (eapply Permutation_in; eassumption).
    specialize (Hmax r' Hr2 Hrel'). specialize (Hmax' r Hr3 Hrel).
    f_equal. apply (NoDup_map_fst_inj _ _ known_repos); auto.
    apply (containing_same_length (Path_resolve fs currentPath)); auto.
    unfold parts_len in *. lia.
  - apply matched_repo_some in Hm as [Hr [Hrel _]].
    rewrite matched_repo_none in Hm'.
    rewrite (Hm' r) in Hrel; [discriminate |].
    eapply Permutation_in; eassumption.
  - apply matched_repo_some in Hm' as [Hr' [Hrel' _]].
    rewrite matched_repo_none in Hm.
    rewrite (Hm r') in Hrel'; [discriminate |].
    eapply Permutation_in; [apply Permutation_sym |]; eassumption.
Qed.

Lemma X2_attribution_order_independent_witness :
  matched_repo tree_fs tree_known (P "/repo/nested/profiles/x")
  = matched_repo tree_fs (rev tree_known) (P "/repo/nested/profiles/x").
Proof.
  apply (X2_attribution_order_independent tree_fs tree_known (rev tree_known)
           (P "/repo/nested/profiles/x")).
  - apply (build_known_repos_NoDup tree_env tree_fs [P "/repo"; P "/repo/nested"]).
  - apply Permutation_rev.
Defined.

(* ================================================================== *)
(** ** The deprecation flag *)

Lemma filter_agree (A : Type) (f g : A -> bool) (l : list A) :
  NoDup l -> filter f l = filter g l -> forall x, In x l -> f x = g x.
Proof.
  induction l as [|y l IH]; intros Hnd Heq x Hx; [destruct Hx |].
  inversion Hnd as [|? ? Hnotin Hnd']; subst. simpl in Heq.
  destruct (f y) eqn:Hf, (g y) eqn:Hg.
  - injection Heq as Heq. destruct Hx as [<- | Hx]; [congruence | now apply IH].
  - exfalso. apply Hnotin.
    assert (Hin : In y (filter g l)) by (rewrite <- Heq; now left).
    now apply filter_In in Hin.
  - exfalso. apply Hnotin.
    assert (Hin : In y (filter f l)) by (rewrite Heq; now left).
    now apply filter_In in Hin.
  - destruct Hx as [<- | Hx]; [congruence | now apply IH].
Qed.

Lemma map_fst_filter (A B : Type) (h : A -> bool) (l : list (A * B)) :
  map fst (filter (fun x => h (fst x)) l) = filter h (map fst l).
Proof.
  induction l as [|x l IH]; simpl; [reflexivity |].
  destruct (h (fst x)); simpl; now rewrite IH.
Qed.

Lemma show_deprecated_warning_same_repos (fs : FS) (known_repos : list known_repo)
    (previousPath currentPath : Path) :
  NoDup (map fst known_repos) ->
  show_deprecated_warning_of (intersecting fs known_repos previousPath)
                             (intersecting fs known_repos currentPath) = false
  <-> forall x, In x known_repos ->
        is_relative_to (Path_resolve fs previousPath) (fst x)
        = is_relative_to (Path_resolve fs currentPath) (fst x).
Proof.
  intros Hnd. unfold show_deprecated_warning_of, intersecting.
  rewrite negb_false_iff, (list_eqb_spec _ Path_eqb Path_eqb_spec).
  rewrite (map_fst_filter _ _ (fun loc => is_relative_to (Path_resolve fs previousPath) loc)),
          (map_fst_filter _ _ (fun loc => is_relative_to (Path_resolve fs currentPath) loc)).
  split.
  - intros Heq x Hx.
    apply (filter_agree _ _ _ (map fst known_repos) Hnd Heq (fst x)).
    now apply in_map.
  - intros Hall. apply filter_ext_in. intros loc Hloc.
    apply in_map_iff in Hloc as [x [<- Hx]]. now apply Hall.
Qed.

Section NodesOfParents.

Variable env : Collab.
Variable fs : FS.
Variable known_repos : list known_repo.

(** A call that returns has added, after what it found, the nodes of
    its parents and then its own. *)
Lemma _addProfile_done_extends (fuel : nat) (currentPath : Path)
    (previous_repos : list known_repo) (st st' : state) :
  _addProfile env fs fuel currentPath known_repos previous_repos st = Done st' ->
  exists before e,
    profiles_complex st'
    = profiles_complex st ++ before
      ++ [make_node env currentPath (matched_repo fs known_repos currentPath) e
            (show_deprecated_warning_of previous_repos
               (intersecting fs known_repos currentPath))].
Proof.
  destruct fuel as [|fuel]; [discriminate |].
  rewrite _addProfile_unfold. cbv zeta.
  destruct (resolve_eapi env fs currentPath _) as [e|err]; [|discriminate].
  destruct (legacy_scan env fs currentPath _ e st) as [st1|err] eqn:Hscan;
    [|discriminate].
  apply legacy_scan_keeps in Hscan as [_ [Hc1 _]].
  assert (Hgrow : forall o, leaves o (fun b => exists l,
                                        profiles_complex b = profiles_complex st1 ++ l) ->
            match o with
            | Done st2 =>
                Done (append_node st2 currentPath
                        (make_node env currentPath
                           (matched_repo fs known_repos currentPath) e
                           (show_deprecated_warning_of previous_repos
                              (intersecting fs known_repos currentPath))))
            | Raised err st2 => Raised err st2
            | Diverged => Diverged
            end = Done st' ->
            exists before e0,
              profiles_complex st'
              = profiles_complex st ++ before
                ++ [make_node env currentPath
                      (matched_repo fs known_repos currentPath) e0
                      (show_deprecated_warning_of previous_repos
                         (intersecting fs known_repos currentPath))]).
  { intros [st2|err st2|]; simpl; try discriminate.
    intros [l Hl] H. injection H as <-. simpl.
    exists l, e. now rewrite Hl, Hc1, app_assoc. }
  destruct (path_exists fs (child currentPath "parent")).
  - destruct (grabfile fs (child currentPath "parent")) as [|ref rest];
      [discriminate |].
    match goal with
    | |- match ?o with _ => _ end = _ -> _ => apply (Hgrow o)
    end.
    apply (addParents_rel env fs
             (fun a b => exists l, profiles_complex b = profiles_complex a ++ l)).
    + intros a. exists []. now rewrite app_nil_r.
    + intros a b c [l1 H1] [l2 H2]. exists (l1 ++ l2). now rewrite H2, H1, app_assoc.
    + intros p s.
      apply (_addProfile_rel env fs
               (fun a b => exists l, profiles_complex b = profiles_complex a ++ l)).
      * intros a. exists []. now rewrite app_nil_r.
      * intros a b c [l1 H1] [l2 H2]. exists (l1 ++ l2).
        now rewrite H2, H1, app_assoc.
      * intros a m. exists []. simpl. now rewrite app_nil_r.
      * intros a q n _ _. exists [n]. reflexivity.
  - apply (Hgrow (Done st1)). simpl. exists []. now rewrite app_nil_r.
Qed.

(** The loop over the parent file adds one sub-stack per reference, in
    order, each ending in the node of the reference's target, visited
    with the repositories of the listing node as previous ones. *)
Lemma addParents_nodes (fuel : nat) (currentPath : Path) :
  forall parents st st',
    addParents env fs
      (fun p s => _addProfile env fs fuel p known_repos
                    (intersecting fs known_repos currentPath) s)
      currentPath (child currentPath "parent")
      (repo_loc_of (matched_repo fs known_repos currentPath))
      (allow_parent_colon_of (matched_repo fs known_repos currentPath))
      parents st = Done st' ->
    exists subs,
      profiles_complex st' = profiles_complex st ++ concat subs
      /\ Forall2
           (fun ref sub => exists step before e,
                parent_edge env fs known_repos currentPath ref = Return step
                /\ sub = before
                         ++ [make_node env (target step)
                               (matched_repo fs known_repos (target step)) e
                               (show_deprecated_warning_of
                                  (intersecting fs known_repos currentPath)
                                  (intersecting fs known_repos (target step)))])
           parents subs.
Proof.
  induction parents as [|ref rest IH]; intros st st'; simpl.
  - intros H. injection H as <-. exists []. simpl. rewrite app_nil_r.
    split; [reflexivity | constructor].
  - destruct (step_parent env fs currentPath _ _ _ ref) as [step|err] eqn:Hstep;
      [|discriminate].
    destruct (path_exists fs (target step)); [|discriminate].
    destruct (_addProfile env fs fuel (target step) known_repos _ st)
      as [s1|err s1|] eqn:Hv; try discriminate.
    intros Hrest.
    apply _addProfile_done_extends in Hv as [before [e Hs1]].
    destruct (IH _ _ Hrest) as [subs [Hc Hall]].
    exists ((before
             ++ [make_node env (target step)
                   (matched_repo fs known_repos (target step)) e
                   (show_deprecated_warning_of
                      (intersecting fs known_repos currentPath)
                      (intersecting fs known_repos (target step)))]) :: subs).
    split.
    + simpl. rewrite Hc, Hs1, <- !app_assoc. reflexivity.
    + constructor; [|assumption]. exists step, before, e.
      split; [exact Hstep | reflexivity].
Qed.

End NodesOfParents.

(** X3.  A call that returns at a node with a parent file has added,
    for each reference of the file in order, a sub-stack of nodes that
    ends in the node of the reference's target, and then the node
    itself.  The recursion hands the repositories of the listing node
    to each parent, so, the known repositories having distinct
    locations as [load_profiles] builds them, the target's node has
    [show_deprecated_warning] false exactly when every known repository
    contains both directories or neither, and true as soon as one
    repository contains only one of the two. *)
Theorem X3_deprecation_flag_between_nodes (env : Collab) (fs : FS) (fuel : nat)
    (known_repos previous_repos : list known_repo) (currentPath : Path)
    (st st' : state) :
  NoDup (map fst known_repos) ->
  path_exists fs (child currentPath "parent") = true ->
  _addProfile env fs (S fuel) currentPath known_repos previous_repos st = Done st' ->
  exists subs own,
    profiles_complex st' = profiles_complex st ++ concat subs ++ [own]
    /\ path own = currentPath
    /\ Forall2
         (fun ref sub => exists step before n,
              parent_edge env fs known_repos currentPath ref = Return step
              /\ sub = before ++ [n]
              /\ path n = target step
              /\ (show_deprecated_warning n = false
                  <-> forall x, In x known_repos ->
                        is_relative_to (Path_resolve fs currentPath) (fst x)
                        = is_relative_to (Path_resolve fs (target step)) (fst x)))
         (grabfile fs (child currentPath "parent")) subs.
Proof.
  intros Hnd Hex. rewrite _addProfile_unfold. cbv zeta. rewrite Hex.
  destruct (resolve_eapi env fs currentPath _) as [e|err]; [|discriminate].
  destruct (legacy_scan env fs currentPath _ e st) as [st1|err] eqn:Hscan;
    [|discriminate].
  apply legacy_scan_keeps in Hscan as [_ [Hc1 _]].
  destruct (grabfile fs (child currentPath "parent")) as [|ref rest] eqn:Hgrab;
    [discriminate |].
  destruct (addParents env fs _ currentPath _ _ _ (ref :: rest) st1)
    as [st2|err st2|] eqn:Hloop; try discriminate.
  intros H. injection H as <-.
  apply addParents_nodes in Hloop as [subs [Hc2 Hall]].
  exists subs,
         (make_node env currentPath (matched_repo fs known_repos currentPath) e
            (show_deprecated_warning_of previous_repos
               (intersecting fs known_repos currentPath))).
  split; [|split].
  - simpl. rewrite Hc2, Hc1, <- app_assoc. reflexivity.
  - reflexivity.
  - eapply Forall2_impl; [|exact Hall].
    intros r sub [step [before [e0 [Hstep ->]]]].
    exists step, before,
           (make_node env (target step) (matched_repo fs known_repos (target step)) e0
              (show_deprecated_warning_of
                 (intersecting fs known_repos currentPath)
                 (intersecting fs known_repos (target step)))).
    split; [exact Hstep |]. split; [reflexivity |].
    split; [reflexivity |]. simpl.
    now apply show_deprecated_warning_same_repos.
Qed.

Lemma X3_deprecation_flag_between_nodes_witness :
  match _addProfile tree_env tree_fs 3 (P "/repo/nested/profiles/x") tree_known []
                    (empty_state []) with
  | Done st' =>
      exists subs own,
        profiles_complex st'
        = profiles_complex (empty_state []) ++ concat subs ++ [own]
        /\ path own = P "/repo/nested/profiles/x"
        /\ Forall2
             (fun ref sub => exists step before n,
                  parent_edge tree_env tree_fs tree_known
                              (P "/repo/nested/profiles/x") ref = Return step
                  /\ sub = before ++ [n]
                  /\ path n = target step
                  /\ (show_deprecated_warning n = false
                      <-> forall x, In x tree_known ->
                            is_relative_to
                              (Path_resolve tree_fs (P "/repo/nested/profiles/x"))
                              (fst x)
                            = is_relative_to (Path_resolve tree_fs (target step))
                                             (fst x)))
             ["gentoo:arch"; ":feat"] subs
  | _ => False
  end.
Proof.
  destruct (_addProfile tree_env tree_fs 3 (P "/repo/nested/profiles/x") tree_known []
                        (empty_state [])) as [st'|e st'|] eqn:Hrun.
  - apply (X3_deprecation_flag_between_nodes tree_env tree_fs 2 tree_known []
             (P "/repo/nested/profiles/x") (empty_state []) st').
    + apply (build_known_repos_NoDup tree_env tree_fs [P "/repo"; P "/repo/nested"]).
    + vm_compute. reflexivity.
    + exact Hrun.
  - vm_compute in Hrun. discriminate.
  - vm_compute in Hrun. discriminate.
Defined.

(** X4.  The node appended by a top-level call, which passes no
    previous repositories, has [show_deprecated_warning] true exactly
    when some known repository contains it; a profile outside every
    known repository gets the flag false. *)
Theorem X4_deprecation_flag_top_level (env : Collab) (fs : FS) (fuel : nat)
    (known_repos : list known_repo) (currentPath : Path) (st st' : state) :
  _addProfile env fs fuel currentPath known_repos [] st = Done st' ->
  exists st2 n,
    st' = append_node st2 currentPath n
    /\ (show_deprecated_warning n = true
        <-> exists x, In x known_repos
                      /\ is_relative_to (Path_resolve fs currentPath) (fst x) = true).
Proof.
  intros Hdone. apply _addProfile_done in Hdone as [st2 [e [_ ->]]].
  eexists _, _. split; [reflexivity |]. simpl.
  unfold show_deprecated_warning_of.
  destruct (intersecting fs known_repos currentPath) as [|x l] eqn:Hint; simpl.
  - split; [discriminate |]. intros [x [Hx Hrel]].
    assert (Hin : In x (intersecting fs known_repos currentPath))
      by (apply intersecting_spec; now split).
    rewrite Hint in Hin. destruct Hin.
  - split; [|reflexivity]. intros _. exists x.
    apply intersecting_spec. rewrite Hint. now left.
Qed.

Lemma X4_deprecation_flag_top_level_witness :
  exists st2 n,
    append_node (empty_state []) (P "/etc/portage/profile")
                (make_node tree_env (P "/etc/portage/profile") None "0" false)
    = append_node st2 (P "/etc/portage/profile") n
    /\ (show_deprecated_warning n = true
        <-> exists x, In x tree_known
                      /\ is_relative_to (Path_resolve tree_fs (P "/etc/portage/profile"))
                                        (fst x) = true).
Proof.
  apply (X4_deprecation_flag_top_level tree_env tree_fs 1 tree_known
           (P "/etc/portage/profile") (empty_state [])).
  reflexivity.
Defined.

(* ================================================================== *)
(** ** Further properties of parent references *)

Lemma startswith_sep_absolute (ref : string) :
  is_absolute (Path_of_string ref) = startswith_sep ref.
Proof. reflexivity. Qed.

(** X5.  A reference that begins with the separator is never
    colon-expanded and cannot fail to expand; the joined path is the
    normalised reference itself, whatever the node's directory, its
    parent file and its colon setting are. *)
Theorem X5_absolute_reference_ignores_node (env : Collab) (fs : FS)
    (currentPath currentPath' parentsFile parentsFile' : Path)
    (repo_loc : option Path) (colon colon' : bool) (ref : string) :
  startswith_sep ref = true ->
  step_parent env fs currentPath parentsFile repo_loc colon ref
  = step_parent env fs currentPath' parentsFile' repo_loc colon' ref
  /\ exists step,
       step_parent env fs currentPath parentsFile repo_loc colon ref = Return step
       /\ joined step = normalize_path env (Path_of_string ref).
Proof.
  intros Habs. unfold step_parent. rewrite Habs. simpl.
  unfold joinpath. rewrite startswith_sep_absolute, Habs.
  split; [reflexivity |]. eexists. split; reflexivity.
Qed.

Lemma X5_absolute_reference_ignores_node_witness :
  step_parent tree_env tree_fs (P "/repo/nested/profiles/x")
              (P "/repo/nested/profiles/x/parent") (Some (P "/repo/nested")) true
              "/repo/profiles/base"
  = step_parent tree_env tree_fs (P "/elsewhere") (P "/elsewhere/parent")
                (Some (P "/repo/nested")) false "/repo/profiles/base"
  /\ exists step,
       step_parent tree_env tree_fs (P "/repo/nested/profiles/x")
                   (P "/repo/nested/profiles/x/parent") (Some (P "/repo/nested")) true
                   "/repo/profiles/base" = Return step
       /\ joined step = normalize_path tree_env (Path_of_string "/repo/profiles/base").
Proof.
  apply (X5_absolute_reference_ignores_node tree_env tree_fs
           (P "/repo/nested/profiles/x") (P "/elsewhere")
           (P "/repo/nested/profiles/x/parent") (P "/elsewhere/parent")
           (Some (P "/repo/nested")) true false "/repo/profiles/base").
  reflexivity.
Defined.

Lemma step_parent_literal (env : Collab) (fs : FS) (currentPath parentsFile : Path)
    (repo_loc : option Path) (colon : bool) (ref : string) :
  colon = false \/ find_colon ref = None ->
  exists step,
    step_parent env fs currentPath parentsFile repo_loc colon ref = Return step
    /\ joined step = normalize_path env (joinpath currentPath (Path_of_string ref)).
Proof.
  intros H. unfold step_parent.
  assert (Hexp : (if negb (startswith_sep ref) && colon
                  then _expand_parent_colon env parentsFile ref repo_loc
                  else Return (Path_of_string ref)) = Return (Path_of_string ref)).
  { destruct (negb (startswith_sep ref) && colon) eqn:Hc; [|reflexivity].
    apply andb_true_iff in Hc as [_ Hc].
    destruct H as [H | H]; [congruence |].
    unfold _expand_parent_colon. now rewrite H. }
  rewrite Hexp. simpl. eexists. split; reflexivity.
Qed.

(** X6.  When the colon syntax is disabled for the node, or the
    reference holds no colon, the reference cannot fail to expand and
    is joined to the node's directory as the path it spells; with no
    colon in it, the colon setting makes no difference to the step. *)
Theorem X6_literal_reference (env : Collab) (fs : FS) (currentPath parentsFile : Path)
    (repo_loc : option Path) (colon : bool) (ref : string) :
  (colon = false \/ find_colon ref = None ->
   exists step,
     step_parent env fs currentPath parentsFile repo_loc colon ref = Return step
     /\ joined step = normalize_path env (joinpath currentPath (Path_of_string ref)))
  /\ (find_colon ref = None ->
      step_parent env fs currentPath parentsFile repo_loc true ref
      = step_parent env fs currentPath parentsFile repo_loc false ref).
Proof.
  split; [apply step_parent_literal |].
  intros Hnone. unfold step_parent, _expand_parent_colon. rewrite Hnone.
  now destruct (negb (startswith_sep ref)).
Qed.

Lemma X6_literal_reference_witness :
  (exists step,
      step_parent legacy_env legacy_fs (P "/repo/profiles/top")
                  (P "/repo/profiles/top/parent") (Some (P "/repo")) false "old:base"
      = Return step
      /\ joined step
         = normalize_path legacy_env
             (joinpath (P "/repo/profiles/top") (Path_of_string "old:base")))
  /\ step_parent tree_env tree_fs (P "/repo/profiles/arch")
                 (P "/repo/profiles/arch/parent") (Some (P "/repo")) true "../base"
     = step_parent tree_env tree_fs (P "/repo/profiles/arch")
                   (P "/repo/profiles/arch/parent") (Some (P "/repo")) false "../base".
Proof.
  split.
  - apply (proj1 (X6_literal_reference legacy_env legacy_fs (P "/repo/profiles/top")
                    (P "/repo/profiles/top/parent") (Some (P "/repo")) false "old:base")).
    left. reflexivity.
  - apply (proj2 (X6_literal_reference tree_env tree_fs (P "/repo/profiles/arch")
                    (P "/repo/profiles/arch/parent") (Some (P "/repo")) true "../base")).
    reflexivity.
Defined.

(** X7.  A node in compatibility mode has the colon syntax disabled:
    its repository declares [portage-1-compat] alone, so every
    reference of its parent file, [name:sub] included, is taken as a
    literal path. *)
Theorem X7_compat_mode_disables_colon (env : Collab) (fs : FS)
    (currentPath parentsFile : Path) (m : option known_repo) (e ref : string) :
  compat_mode_of env m e = true ->
  allow_parent_colon_of m = false
  /\ exists step,
       step_parent env fs currentPath parentsFile (repo_loc_of m)
                   (allow_parent_colon_of m) ref = Return step
       /\ joined step = normalize_path env (joinpath currentPath (Path_of_string ref)).
Proof.
  intros Hcompat.
  assert (Hcolon : allow_parent_colon_of m = false).
  { unfold compat_mode_of in Hcompat. destruct m as [[loc lay]|]; [|discriminate].
    apply andb_true_iff in Hcompat as [_ Hfmt].
    apply (list_eqb_spec _ String.eqb String.eqb_eq) in Hfmt.
    simpl. now rewrite Hfmt. }
  split; [assumption |]. apply step_parent_literal. now left.
Qed.

Lemma X7_compat_mode_disables_colon_witness :
  allow_parent_colon_of (matched_repo legacy_fs legacy_known (P "/repo/profiles/top"))
  = false
  /\ exists step,
       step_parent legacy_env legacy_fs (P "/repo/profiles/top")
                   (P "/repo/profiles/top/parent")
                   (repo_loc_of (matched_repo legacy_fs legacy_known
                                              (P "/repo/profiles/top")))
                   (allow_parent_colon_of (matched_repo legacy_fs legacy_known
                                                        (P "/repo/profiles/top")))
                   "old:base" = Return step
       /\ joined step
          = normalize_path legacy_env
              (joinpath (P "/repo/profiles/top") (Path_of_string "old:base")).
Proof.
  apply (X7_compat_mode_disables_colon legacy_env legacy_fs (P "/repo/profiles/top")
           (P "/repo/profiles/top/parent")
           (matched_repo legacy_fs legacy_known (P "/repo/profiles/top")) "5" "old:base").
  reflexivity.
Defined.

(* ================================================================== *)
(** ** Invariants of the whole traversal *)

Section KnownRelation.

Variable env : Collab.
Variable fs : FS.
Variable known_repos : list known_repo.

(** A relation between the state before and after that the scan of a
    directory and the append of its node respect. *)
Variable R : state -> state -> Prop.
Hypothesis R_refl : forall st, R st st.
Hypothesis R_trans : forall a b c, R a b -> R b c -> R a c.
Hypothesis R_scan : forall p e st st1,
  legacy_scan env fs p (matched_repo fs known_repos p) e st = Return st1 -> R st st1.
Hypothesis R_node : forall p previous_repos e st,
  resolve_eapi env fs p (matched_repo fs known_repos p) = Return e ->
  R st (append_node st p
          (make_node env p (matched_repo fs known_repos p) e
             (show_deprecated_warning_of previous_repos
                (intersecting fs known_repos p)))).

Lemma _addProfile_rel_known (fuel : nat) :
  forall currentPath previous_repos st,
    leaves (_addProfile env fs fuel currentPath known_repos previous_repos st) (R st).
Proof.
  induction fuel as [|fuel IH]; intros currentPath previous_repos st.
  - exact I.
  - rewrite _addProfile_unfold. cbv zeta.
    destruct (resolve_eapi env fs currentPath _) as [e|err] eqn:Heapi; simpl;
      [|apply R_refl].
    destruct (legacy_scan env fs currentPath _ e st) as [st1|err] eqn:Hscan;
      simpl; [|apply R_refl].
    apply R_scan in Hscan.
    destruct (path_exists fs (child currentPath "parent")).
    + destruct (grabfile fs (child currentPath "parent")) as [|ref rest] eqn:Hgrab;
        [simpl; assumption |].
      pose proof (addParents_rel env fs R R_refl R_trans
                    (fun p s => _addProfile env fs fuel p known_repos
                                  (intersecting fs known_repos currentPath) s)
                    currentPath (child currentPath "parent")
                    (repo_loc_of (matched_repo fs known_repos currentPath))
                    (allow_parent_colon_of (matched_repo fs known_repos currentPath))
                    (fun p s => IH p _ s) (ref :: rest) st1) as Hloop.
      destruct (addParents env fs _ currentPath _ _ _ (ref :: rest) st1)
        as [st2|err st2|]; cbn [leaves] in *.
      * eapply R_trans; [eassumption |]. eapply R_trans; [eassumption |].
        now apply R_node.
      * eauto.
      * exact I.
    + simpl. eapply R_trans; [eassumption |]. now apply R_node.
Qed.

End KnownRelation.

Lemma make_node_of_directory (env : Collab) (fs : FS) (known_repos : list known_repo)
    (p : Path) (e : string) (sdw : bool) :
  resolve_eapi env fs p (matched_repo fs known_repos p) = Return e ->
  node_of_directory env fs known_repos
    (make_node env p (matched_repo fs known_repos p) e sdw).
Proof.
  intros Heapi. unfold node_of_directory. simpl. split; [reflexivity |].
  split; [now destruct (matched_repo fs known_repos p) as [[loc lay]|] |].
  split; [reflexivity |]. split; [now intros -> |].
  exists e. split; [reflexivity |]. split; [assumption |].
  intros Hempty ->. unfold resolve_eapi in Heapi.
  destruct (readline fs (child p "eapi")) as [line|].
  - destruct (eapi_is_supported env (strip line)) eqn:Hs; [|discriminate].
    injection Heapi as Hline. congruence.
  - injection Heapi as Hd. unfold default_eapi, or_zero in Hd.
    destruct (matched_repo fs known_repos p) as [[loc lay]|]; [|discriminate].
    destruct (profile_eapi_when_unspecified lay) as [d|]; [|discriminate].
    destruct (String.eqb_spec d ""); [discriminate | congruence].
Qed.

(** X8.  However a call of [_addProfile] ends, it has only appended:
    the profiles and nodes present before are still there, in place,
    followed by as many new profiles as new nodes, each profile being
    the path of its node.  A failed call leaves its partial additions
    behind.  Every node added, at any depth, is annotated from its own
    directory: formats of the repository matched for it, build-id
    support read off those formats, not a user profile, directories
    allowed when no repository matches, and the EAPI resolved for that
    directory, which is not empty unless the empty EAPI is supported. *)
Theorem X8_append_only_annotated_nodes (env : Collab) (fs : FS) (fuel : nat)
    (currentPath : Path) (known_repos previous_repos : list known_repo) (st : state) :
  leaves (_addProfile env fs fuel currentPath known_repos previous_repos st)
         (fun st' => exists added,
              profiles st' = profiles st ++ map path added
              /\ profiles_complex st' = profiles_complex st ++ added
              /\ Forall (node_of_directory env fs known_repos) added).
Proof.
  apply (_addProfile_rel_known env fs known_repos
           (fun a b => exists added,
                profiles b = profiles a ++ map path added
                /\ profiles_complex b = profiles_complex a ++ added
                /\ Forall (node_of_directory env fs known_repos) added)).
  - intros a. exists []. simpl. rewrite !app_nil_r. auto.
  - intros a b c [l1 [Hp1 [Hc1 Hn1]]] [l2 [Hp2 [Hc2 Hn2]]].
    exists (l1 ++ l2). rewrite Hp2, Hp1, Hc2, Hc1, map_app, <- !app_assoc.
    repeat split. apply Forall_app. now split.
  - intros p e a b Hscan. apply legacy_scan_keeps in Hscan as [Hp [Hc _]].
    exists []. simpl. rewrite !app_nil_r. auto.
  - intros p prev e a Heapi.
    exists [make_node env p (matched_repo fs known_repos p) e
              (show_deprecated_warning_of prev (intersecting fs known_repos p))].
    split; [reflexivity |]. split; [reflexivity |].
    constructor; [now apply make_node_of_directory | constructor].
Qed.

Lemma X8_append_only_annotated_nodes_witness :
  match _addProfile tree_env tree_fs 3 (P "/repo/nested/profiles/x") tree_known []
                    (empty_state []) with
  | Done st' =>
      List.length (profiles_complex st') = 4
      /\ Forall (node_of_directory tree_env tree_fs tree_known) (profiles_complex st')
  | _ => False
  end.
Proof.
  pose proof (X8_append_only_annotated_nodes tree_env tree_fs 3
                (P "/repo/nested/profiles/x") tree_known [] (empty_state [])) as H.
  destruct (_addProfile tree_env tree_fs 3 (P "/repo/nested/profiles/x") tree_known []
                        (empty_state [])) as [st'|e st'|] eqn:Hrun.
  - destruct H as [added [_ [Hc Hall]]]. simpl in Hc. rewrite Hc. split; [|assumption].
    rewrite <- Hc. vm_compute in Hrun. injection Hrun as <-. reflexivity.
  - vm_compute in Hrun. discriminate.
  - vm_compute in Hrun. discriminate.
Defined.

(** X9.  When no known repository declares [portage-1-compat] as its
    only profile format, a call of [_addProfile] emits nothing, however
    it ends: declaring any other format silences the advisory for the
    whole traversal. *)
Theorem X9_no_advisory_without_compat_repository (env : Collab) (fs : FS) (fuel : nat)
    (currentPath : Path) (known_repos previous_repos : list known_repo) (st : state) :
  (forall r, In r known_repos -> ld_profile_formats (snd r) <> ["portage-1-compat"]) ->
  leaves (_addProfile env fs fuel currentPath known_repos previous_repos st)
         (fun st' => messages st' = messages st).
Proof.
  intros Hfmt.
  apply (_addProfile_rel_known env fs known_repos
           (fun a b => messages b = messages a)).
  - reflexivity.
  - intros a b c H1 H2. congruence.
  - intros p e a b. unfold legacy_scan.
    assert (Hcompat : compat_mode_of env (matched_repo fs known_repos p) e = false).
    { unfold compat_mode_of.
      destruct (matched_repo fs known_repos p) as [[loc lay]|] eqn:Hm; [|reflexivity].
      apply matched_repo_some in Hm as [Hin _]. specialize (Hfmt _ Hin). simpl in Hfmt.
      destruct (list_eqb String.eqb (ld_profile_formats lay) ["portage-1-compat"])
        eqn:Heq; [|apply andb_false_r].
      apply (list_eqb_spec _ String.eqb String.eqb_eq) in Heq. contradiction. }
    rewrite Hcompat. intros H. now injection H as <-.
  - reflexivity.
Qed.

Lemma X9_no_advisory_without_compat_repository_witness :
  leaves (_addProfile tree_env tree_fs 3 (P "/repo/nested/profiles/x") tree_known []
                      (empty_state []))
         (fun st' => messages st' = messages (empty_state [])).
Proof.
  apply (X9_no_advisory_without_compat_repository tree_env tree_fs 3
           (P "/repo/nested/profiles/x") tree_known [] (empty_state [])).
  intros r Hr. vm_compute in Hr.
  destruct Hr as [<- | [<- | []]]; discriminate.
Defined.

(* ================================================================== *)
(** ** Errors are justified *)

Section Errors.

Variable env : Collab.
Variable fs : FS.






End Errors.



(* ================================================================== *)
(** ** Further properties of [load_profiles] *)

(** X11.  When the selected profile directory belongs to a repository
    in compatibility mode and cannot be listed, [load_profiles] does
    not fall back to an empty stack: the listing failure is not a
    [ParseError], so the [except] clause lets it through, in sync mode
    or not. *)
Theorem X11_unlistable_profile_directory (env : Collab) (fs : FS) (fuel : nat)
    (self : LocationsManager) (known_repository_paths : list Path)
    (v : PyVal) (msgs : list message) (e : string) :
  select_profile_path env fs self = (Some v, msgs) ->
  py_truthy v = true ->
  resolve_eapi env fs (Path_resolve fs (Path_of_pyval v))
    (matched_repo fs (build_known_repos env fs known_repository_paths)
                  (Path_resolve fs (Path_of_pyval v))) = Return e ->
  compat_mode_of env
    (matched_repo fs (build_known_repos env fs known_repository_paths)
                  (Path_resolve fs (Path_of_pyval v))) e = true ->
  listdir fs (Path_resolve fs (Path_of_pyval v)) = None ->
  load_profiles env fs (S fuel) self known_repository_paths
  = LoadRaised (OSError (Path_resolve fs (Path_of_pyval v))).
Proof.
  intros Hsel Htruthy Heapi Hcompat Hlist.
  unfold load_profiles. rewrite Hsel. unfold resolve_top. rewrite Htruthy.
  rewrite _addProfile_unfold. cbv zeta. rewrite Heapi.
  unfold legacy_scan. now rewrite Hcompat, Hlist.
Qed.

Lemma X11_unlistable_profile_directory_witness :
  load_profiles legacy_env legacy_fs 1 ghost_manager [P "/repo"]
  = LoadRaised (OSError (P "/repo/profiles/ghost")).
Proof.
  apply (X11_unlistable_profile_directory legacy_env legacy_fs 0 ghost_manager
           [P "/repo"] (PPath (P "/repo/profiles/ghost")) [] "5");
    vm_compute; reflexivity.
Defined.

(** X12.  Without a usable profile path, [load_profiles] resolves
    nothing and returns at once with empty [profiles] and
    [profiles_complex]; the user's profile directory is not added
    either, although user configuration may be enabled and the
    directory may exist.  This is the case for an empty string given as
    profile path, and for no path given when neither [make.profile]
    directory exists. *)
Theorem X12_no_profile_path_no_profiles (env : Collab) (fs : FS) (fuel : nat)
    (self : LocationsManager) (known_repository_paths : list Path) :
  (config_profile_path self = Some (PStr "")
   \/ (config_profile_path self = None
       /\ is_dir fs (joinpath (config_root self) (PROFILE_PATH env)) = false
       /\ is_dir fs (child (child (config_root self) "etc") "make.profile") = false)) ->
  exists pp,
    option_truthy pp = false
    /\ load_profiles env fs fuel self known_repository_paths
       = Loaded {| profile_path := pp;
                   user_profile_dir := None;
                   final := empty_state [] |}.
Proof.
  intros [Hempty | [Hnone [Hnew Hold]]].
  - exists (Some (PStr "")). split; [reflexivity |].
    unfold load_profiles, select_profile_path. rewrite Hempty. simpl.
    unfold add_user_profile. simpl. now destruct (_user_config self).
  - exists None. split; [reflexivity |].
    unfold load_profiles, select_profile_path. rewrite Hnone, Hnew, Hold. simpl.
    unfold add_user_profile. simpl. now destruct (_user_config self).
Qed.

Lemma X12_no_profile_path_no_profiles_witness :
  path_exists tree_fs (joinpath (config_root profileless_manager)
                                (CUSTOM_PROFILE_PATH tree_env)) = true
  /\ (exists pp,
         option_truthy pp = false
         /\ load_profiles tree_env tree_fs 0 profileless_manager
                          [P "/repo"; P "/repo/nested"]
            = Loaded {| profile_path := pp;
                        user_profile_dir := None;
                        final := empty_state [] |})
  /\ exists pp,
       option_truthy pp = false
       /\ load_profiles tree_env tree_fs 0 unconfigured_manager
                        [P "/repo"; P "/repo/nested"]
          = Loaded {| profile_path := pp;
                      user_profile_dir := None;
                      final := empty_state [] |}.
Proof.
  split; [reflexivity |]. split.
  - apply (X12_no_profile_path_no_profiles tree_env tree_fs 0 profileless_manager
             [P "/repo"; P "/repo/nested"]).
    left. reflexivity.
  - apply (X12_no_profile_path_no_profiles tree_env tree_fs 0 unconfigured_manager
             [P "/repo"; P "/repo/nested"]).
    right. repeat split.
Defined.

Lemma lockstep_nil (st : state) :
  lockstep st -> profiles st = [] -> profiles_complex st = [].
Proof.
  intros [Hmap _] Hnil. rewrite Hnil in Hmap.
  now destruct (profiles_complex st).
Qed.

(** X13.  After [load_profiles] returns, a user profile directory is
    recorded exactly when user configuration is enabled, the fixed
    directory under the configuration root exists, and the resolution
    produced at least one profile.  It is then that fixed directory,
    the last of [profiles], and its node is the last of
    [profiles_complex]: a user profile that allows directories, with
    the two fixed formats, build-id support, the EAPI read for the
    directory if any, and no deprecation warning. *)
Theorem X13_user_profile_node (env : Collab) (fs : FS) (fuel : nat)
    (self : LocationsManager) (known_repository_paths : list Path) (r : loaded) :
  load_profiles env fs fuel self known_repository_paths = Loaded r ->
  let custom_prof := joinpath (config_root self) (CUSTOM_PROFILE_PATH env) in
  (user_profile_dir r <> None
   <-> _user_config self = true
       /\ path_exists fs custom_prof = true
       /\ exists n, nth_error (profiles_complex (final r)) 0 = Some n
                    /\ is_user_profile n = false)
  /\ (user_profile_dir r <> None ->
      user_profile_dir r = Some custom_prof
      /\ exists base nodes,
           base <> []
           /\ profiles (final r) = base ++ [custom_prof]
           /\ profiles_complex (final r)
              = nodes ++ [{| path := custom_prof;
                             allow_directories := true;
                             is_user_profile := true;
                             formats := ["profile-bashrcs"; "profile-set"];
                             eapi := read_corresponding_eapi_file fs custom_prof;
                             supports_build_id := true;
                             show_deprecated_warning := false |}]).
Proof.
  unfold load_profiles.
  destruct (select_profile_path env fs self) as [pp msgs].
  destruct (resolve_top env fs fuel _ pp msgs) as [st|e st|] eqn:Htop;
    try discriminate.
  apply resolve_top_lockstep in Htop. pose proof Htop as [Hmap Hall].
  unfold add_user_profile. cbv zeta.
  destruct (_user_config self) eqn:Huser.
  - destruct (profiles st) as [|p0 ps] eqn:Hprof.
    + intros H. injection H as <-. simpl.
      rewrite (lockstep_nil st Htop Hprof). simpl. split.
      * split; [congruence |]. intros [_ [_ [n [Hn _]]]]. discriminate.
      * congruence.
    + destruct (path_exists fs (joinpath (config_root self) (CUSTOM_PROFILE_PATH env)))
        eqn:Hex.
      * intros H. injection H as <-. simpl. split.
        -- split; [|discriminate]. intros _. repeat split.
           destruct (profiles_complex st) as [|n ns] eqn:Hpc.
           ++ discriminate.
           ++ exists n. split; [reflexivity |]. now inversion Hall.
        -- intros _. split; [reflexivity |].
           exists (p0 :: ps), (profiles_complex st).
           rewrite Hprof. repeat split. discriminate.
      * intros H. injection H as <-. simpl. split.
        -- split; [congruence |]. intros [_ [Hf _]]. discriminate.
        -- congruence.
  - intros H. injection H as <-. simpl. split.
    + split; [congruence |]. intros [Hf _]. discriminate.
    + congruence.
Qed.

Lemma X13_user_profile_node_witness :
  exists r,
    load_profiles tree_env tree_fs 3 tree_manager [P "/repo"; P "/repo/nested"] = Loaded r
    /\ user_profile_dir r = Some (P "/etc/portage/profile")
    /\ exists base nodes,
         base <> []
         /\ profiles (final r) = base ++ [P "/etc/portage/profile"]
         /\ profiles_complex (final r)
            = nodes ++ [{| path := P "/etc/portage/profile";
                           allow_directories := true;
                           is_user_profile := true;
                           formats := ["profile-bashrcs"; "profile-set"];
                           eapi := None;
                           supports_build_id := true;
                           show_deprecated_warning := false |}].
Proof.
  eexists. split; [vm_compute; reflexivity |].
  match goal with
  | |- context [user_profile_dir ?r] =>
      pose proof (X13_user_profile_node tree_env tree_fs 3 tree_manager
                    [P "/repo"; P "/repo/nested"] r eq_refl) as H
  end.
  cbv zeta in H. destruct H as [_ H].
  apply H. discriminate.
Defined.

(* ================================================================== *)
(** ** Further properties of [set_root_override] *)

Lemma py_ne_false (a b : PyVal) : py_ne a b = false -> a = b.
Proof.
  unfold py_ne. rewrite negb_false_iff.
  destruct a as [s|p], b as [t|q]; simpl; try discriminate.
  - intros H. apply String.eqb_eq in H. now subst.
  - intros H. apply Path_eqb_spec in H. now subst.
Qed.

Lemma strip_nonblank (s : string) : strip s <> ""%string -> s <> ""%string.
Proof. intros H ->. now apply H. Qed.

Lemma set_root_override_returns (env : Collab) (fs : FS)
    (self : LocationsManager) (root_overwrite : option PyVal)
    (msgs : list message) (root : Path) :
  set_root_override env fs self root_overwrite = (msgs, Return root) ->
  msgs = []
  /\ is_dir fs root = true
  /\ (sysroot self = PStr "/" \/ sysroot self = PPath root)
  /\ root = normalize_path env
              (Path_resolve fs match target_root self with
                               | Some (PPath p) => p
                               | _ => Path_of_string "/"
                               end).
Proof.
  unfold set_root_override.
  assert (Hcheck : forall p,
            (let r := normalize_path env (Path_resolve fs p) in
             if py_ne (sysroot self) (PStr "/") && py_ne (sysroot self) (PPath r)
             then ([Msg_sysroot_mismatch (sysroot self) r],
                   Raise (InvalidLocation (sysroot self)))
             else if is_dir fs r then ([], Return r)
                  else ([Msg_not_a_directory "ROOT" r], Raise (DirectoryNotFound r)))
            = (msgs, Return root) ->
            msgs = [] /\ is_dir fs root = true
            /\ (sysroot self = PStr "/" \/ sysroot self = PPath root)
            /\ root = normalize_path env (Path_resolve fs p)).
  { intros p. cbv zeta.
    destruct (py_ne (sysroot self) (PStr "/")
              && py_ne (sysroot self) (PPath (normalize_path env (Path_resolve fs p))))
      eqn:Hne; [discriminate |].
    destruct (is_dir fs (normalize_path env (Path_resolve fs p))) eqn:Hdir;
      [|discriminate].
    intros H. injection H as <- <-. repeat split; auto.
    apply andb_false_iff in Hne as [Hne | Hne]; apply py_ne_false in Hne; auto. }
  destruct (target_root self) as [[s|p]|] eqn:Ht.
  - simpl. destruct (String.eqb s "") eqn:Hs; simpl; [apply Hcheck | discriminate].
  - simpl. apply Hcheck.
  - destruct root_overwrite as [[s|p]|]; simpl.
    + destruct (String.eqb (strip s) "") eqn:Hs; simpl; [apply Hcheck |].
      destruct (String.eqb s ""); simpl; [apply Hcheck | discriminate].
    + discriminate.
    + apply Hcheck.
Qed.

(** X14.  When [set_root_override] returns, it has written no message,
    the target root is an existing directory, and the stored sysroot is
    either the default string ["/"] or the target root itself.  The
    target root is the normalised, resolved constructor argument when
    that was a path, and the root directory otherwise: a returning call
    never takes its target root from [root_overwrite]. *)
Theorem X14_root_override_postcondition (env : Collab) (fs : FS)
    (self : LocationsManager) (root_overwrite : option PyVal)
    (msgs : list message) (root : Path) :
  set_root_override env fs self root_overwrite = (msgs, Return root) ->
  msgs = []
  /\ is_dir fs root = true
  /\ (sysroot self = PStr "/" \/ sysroot self = PPath root)
  /\ root = normalize_path env
              (Path_resolve fs match target_root self with
                               | Some (PPath p) => p
                               | _ => Path_of_string "/"
                               end).
Proof.
  intros Hret.
  exact (set_root_override_returns env fs self root_overwrite msgs root Hret).
Qed.

Lemma X14_root_override_postcondition_witness :
  is_dir root_fs (P "/foo") = true
  /\ (sysroot default_sysroot_manager = PStr "/"
      \/ sysroot default_sysroot_manager = PPath (P "/foo")).
Proof.
  destruct (X14_root_override_postcondition tree_env root_fs default_sysroot_manager
              None [] (P "/foo") eq_refl) as [_ [Hdir [Hsys _]]].
  split; assumption.
Defined.

(** X15.  [root_overwrite] is looked at only when the constructor was
    given no target root.  It then counts as absent when it is a blank
    string, and makes the call end with [AttributeError] when it is
    anything else: a path has no [strip], and a string that is kept has
    no [resolve]. *)
Theorem X15_root_overwrite_rules (env : Collab) (fs : FS) (self : LocationsManager) :
  (target_root self <> None ->
   forall o o', set_root_override env fs self o = set_root_override env fs self o')
  /\ (target_root self = None ->
      (forall s, strip s = ""%string ->
                 set_root_override env fs self (Some (PStr s))
                 = set_root_override env fs self None)
      /\ (forall s, strip s <> ""%string ->
                    set_root_override env fs self (Some (PStr s))
                    = ([], Raise AttributeError))
      /\ (forall p, set_root_override env fs self (Some (PPath p))
                    = ([], Raise AttributeError))).
Proof.
  split.
  - intros Hsome o o'. unfold set_root_override.
    destruct (target_root self); [reflexivity | congruence].
  - intros Hnone. unfold set_root_override. rewrite Hnone. repeat split.
    + intros s Hs. now rewrite Hs.
    + intros s Hs. pose proof (strip_nonblank s Hs) as Hs'.
      apply String.eqb_neq in Hs, Hs'. rewrite Hs. simpl. now rewrite Hs'.
Qed.

Lemma X15_root_overwrite_rules_witness :
  set_root_override tree_env root_fs default_sysroot_manager (Some (PStr "/bar"))
  = set_root_override tree_env root_fs default_sysroot_manager None
  /\ set_root_override tree_env root_fs unconfigured_manager (Some (PStr "  "))
     = set_root_override tree_env root_fs unconfigured_manager None
  /\ set_root_override tree_env root_fs unconfigured_manager (Some (PStr "/foo"))
     = ([], Raise AttributeError).
Proof.
  destruct (X15_root_overwrite_rules tree_env root_fs default_sysroot_manager)
    as [Hgiven _].
  destruct (X15_root_overwrite_rules tree_env root_fs unconfigured_manager)
    as [_ Hnone].
  destruct (Hnone eq_refl) as [Hblank [Hstr _]].
  split; [|split].
  - apply Hgiven. discriminate.
  - apply Hblank. reflexivity.
  - apply Hstr. discriminate.
Defined.

(** X16.  [set_root_override] raises [InvalidLocation] only for a
    sysroot that was given to the constructor: with the default sysroot
    it never does, whatever the target root is.  When it does, it
    carries the stored sysroot, which differs from the target root, and
    the mismatch has been written as the only message. *)
Theorem X16_invalid_location_needs_explicit_sysroot (env : Collab) (fs : FS)
    (self : LocationsManager) (root_overwrite arg : option PyVal) (s : PyVal) :
  sysroot self = init_sysroot env fs arg ->
  snd (set_root_override env fs self root_overwrite) = Raise (InvalidLocation s) ->
  arg <> None
  /\ s = sysroot self
  /\ exists root,
       fst (set_root_override env fs self root_overwrite)
       = [Msg_sysroot_mismatch s root]
       /\ s <> PPath root.
Proof.
  intros Hsys. unfold set_root_override.
  assert (Hcheck : forall p,
            snd (let r := normalize_path env (Path_resolve fs p) in
                 if py_ne (sysroot self) (PStr "/") && py_ne (sysroot self) (PPath r)
                 then ([Msg_sysroot_mismatch (sysroot self) r],
                       Raise (InvalidLocation (sysroot self)))
                 else if is_dir fs r then ([], Return r)
                      else ([Msg_not_a_directory "ROOT" r],
                            Raise (DirectoryNotFound r)))
            = Raise (InvalidLocation s) ->
            arg <> None /\ s = sysroot self
            /\ exists root,
                 fst (let r := normalize_path env (Path_resolve fs p) in
                      if py_ne (sysroot self) (PStr "/")
                         && py_ne (sysroot self) (PPath r)
                      then ([Msg_sysroot_mismatch (sysroot self) r],
                            Raise (InvalidLocation (sysroot self)))
                      else if is_dir fs r then ([], Return r)
                           else ([Msg_not_a_directory "ROOT" r],
                                 Raise (DirectoryNotFound r)))
                 = [Msg_sysroot_mismatch s root]
                 /\ s <> PPath root).
  { intros p. cbv zeta.
    destruct (py_ne (sysroot self) (PStr "/")
              && py_ne (sysroot self) (PPath (normalize_path env (Path_resolve fs p))))
      eqn:Hne.
    - simpl. intros H. injection H as <-.
      apply andb_true_iff in Hne as [Hstr Hpath]. repeat split.
      + intros ->. rewrite Hsys in Hstr. discriminate.
      + eexists. split; [reflexivity |]. intros Heq. rewrite Heq in Hpath.
        unfold py_ne in Hpath. simpl in Hpath.
        rewrite (proj2 (Path_eqb_spec _ _) eq_refl) in Hpath. discriminate.
    - destruct (is_dir fs (normalize_path env (Path_resolve fs p))); discriminate. }
  destruct (target_root self) as [[t|p]|] eqn:Ht.
  - simpl. destruct (String.eqb t "") eqn:Hs; simpl; [apply Hcheck | discriminate].
  - simpl. apply Hcheck.
  - destruct root_overwrite as [[t|p]|]; simpl.
    + destruct (String.eqb (strip t) "") eqn:Hs; simpl; [apply Hcheck |].
      destruct (String.eqb t ""); simpl; [apply Hcheck | discriminate].
    + discriminate.
    + apply Hcheck.
Qed.

Lemma X16_invalid_location_needs_explicit_sysroot_witness :
  Some (PPath (P "/")) <> None
  /\ PPath (P "/") = sysroot explicit_sysroot_manager
  /\ exists root,
       fst (set_root_override tree_env root_fs explicit_sysroot_manager None)
       = [Msg_sysroot_mismatch (PPath (P "/")) root]
       /\ PPath (P "/") <> PPath root.
Proof.
  apply (X16_invalid_location_needs_explicit_sysroot tree_env root_fs
           explicit_sysroot_manager None (Some (PPath (P "/"))) (PPath (P "/")));
    reflexivity.
Defined.

(* ================================================================== *)
(** ** The constructor, the prefixed roots and the port directories *)

Lemma relative_to_sep_some (p rel : Path) :
  relative_to_sep p = Some rel ->
  is_absolute p = true /\ rel = {| is_absolute := false; segs := segs p |}.
Proof.
  unfold relative_to_sep. destruct (is_absolute p); [|discriminate].
  intros H. now injection H as <-.
Qed.

Lemma joinpath_relative (a rel : Path) :
  is_absolute rel = false ->
  joinpath a rel = {| is_absolute := is_absolute a; segs := segs a ++ segs rel |}.
Proof. unfold joinpath. now intros ->. Qed.

(** What holds of an instance the constructor has built. *)
Lemma __init___built (env : Collab) (fs : FS) (const : Constants)
    (config_root_arg eprefix_arg : option Path) (config_profile_path_arg : option PyVal)
    (local_config : bool) (target_root_arg sysroot_arg : option PyVal)
    (msgs : list message) (self : instance) :
  __init__ env fs const config_root_arg eprefix_arg config_profile_path_arg
           local_config target_root_arg sysroot_arg = (msgs, Built self) ->
  msgs = []
  /\ attrs self
     = {| config_root :=
            normalize_path env
              (Path_resolve fs match config_root_arg with
                               | None => EPREFIX const
                               | Some c => c
                               end);
          config_profile_path := config_profile_path_arg;
          _user_config := local_config;
          target_root := target_root_arg;
          sysroot := init_sysroot env fs sysroot_arg |}
  /\ is_dir fs (config_root (attrs self)) = true
  /\ abs_user_config self = joinpath (config_root (attrs self)) (USER_CONFIG_PATH const)
  /\ broot self = EPREFIX const
  /\ exists e,
       e = match eprefix_arg with
           | None => EPREFIX const
           | Some x => normalize_path env x
           end
       /\ eprefix self = PPath e
       /\ is_absolute e = true
       /\ esysroot self
          = {| is_absolute := is_absolute (Path_of_pyval (sysroot (attrs self)));
               segs := segs (Path_of_pyval (sysroot (attrs self))) ++ segs e |}.
Proof.
  unfold __init__, _check_var_directory. cbv zeta.
  destruct (is_dir fs (normalize_path env (Path_resolve fs _))) eqn:Hdir;
    [|discriminate].
  set (e := match eprefix_arg with
            | None => EPREFIX const
            | Some x => normalize_path env x
            end).
  assert (He : match eprefix_arg with
               | None => PPath (EPREFIX const)
               | Some x => if py_eq (PPath (normalize_path env x)) (PStr "/")
                           then PStr "" else PPath (normalize_path env x)
               end = PPath e) by (unfold e; now destruct eprefix_arg).
  rewrite He. simpl.
  destruct (relative_to_sep e) as [rel|] eqn:Hrel; [|discriminate].
  apply relative_to_sep_some in Hrel as [Habs ->].
  intros H. injection H as <- <-. simpl.
  repeat split; try assumption.
  exists e. repeat split; assumption.
Qed.

(** X17.  An instance built by the constructor has written no message;
    its configuration root is the normalised, resolved argument, or the
    constant [EPREFIX] when none was given (the [eprefix] argument
    plays no part in it), and is an existing directory; its prefix is
    anchored; and its [esysroot] is the sysroot followed by the
    segments of the prefix. *)
Theorem X17_constructor_postcondition (env : Collab) (fs : FS) (const : Constants)
    (config_root_arg eprefix_arg : option Path) (config_profile_path_arg : option PyVal)
    (local_config : bool) (target_root_arg sysroot_arg : option PyVal)
    (msgs : list message) (self : instance) :
  __init__ env fs const config_root_arg eprefix_arg config_profile_path_arg
           local_config target_root_arg sysroot_arg = (msgs, Built self) ->
  msgs = []
  /\ config_root (attrs self)
     = normalize_path env
         (Path_resolve fs match config_root_arg with
                          | None => EPREFIX const
                          | Some c => c
                          end)
  /\ is_dir fs (config_root (attrs self)) = true
  /\ abs_user_config self = joinpath (config_root (attrs self)) (USER_CONFIG_PATH const)
  /\ sysroot (attrs self) = init_sysroot env fs sysroot_arg
  /\ exists e,
       eprefix self = PPath e
       /\ is_absolute e = true
       /\ esysroot self
          = {| is_absolute := is_absolute (Path_of_pyval (sysroot (attrs self)));
               segs := segs (Path_of_pyval (sysroot (attrs self))) ++ segs e |}.
Proof.
  intros Hbuilt.
  destruct (__init___built _ _ _ _ _ _ _ _ _ _ _ Hbuilt)
    as [Hmsgs [Hattrs [Hdir [Huser [_ [e [_ [He [Habs Hesys]]]]]]]]].
  rewrite Hattrs in *. simpl in *. repeat split; auto.
  exists e. auto.
Qed.

(** X18.  The constructor raises [DirectoryNotFound], after writing
    the message, exactly when the configuration root is found not to
    be a directory, whatever the prefix is; and it raises [ValueError]
    exactly when that root is a directory and the prefix in force, the
    normalised argument or the constant [EPREFIX], is not anchored. *)
Theorem X18_constructor_failures (env : Collab) (fs : FS) (const : Constants)
    (config_root_arg eprefix_arg : option Path) (config_profile_path_arg : option PyVal)
    (local_config : bool) (target_root_arg sysroot_arg : option PyVal) :
  let root := normalize_path env
                (Path_resolve fs match config_root_arg with
                                 | None => EPREFIX const
                                 | Some c => c
                                 end) in
  let e := match eprefix_arg with
           | None => EPREFIX const
           | Some x => normalize_path env x
           end in
  let run := __init__ env fs const config_root_arg eprefix_arg config_profile_path_arg
                      local_config target_root_arg sysroot_arg in
  (is_dir fs root = false
   <-> run = ([Msg_not_a_directory "PORTAGE_CONFIGROOT" root],
              Failed (Known (DirectoryNotFound root))))
  /\ (is_dir fs root = true /\ is_absolute e = false <-> run = ([], Failed ValueError)).
Proof.
  cbv zeta. unfold __init__, _check_var_directory.
  set (root := normalize_path env (Path_resolve fs _)).
  set (e := match eprefix_arg with
            | None => EPREFIX const
            | Some x => normalize_path env x
            end).
  assert (He : match eprefix_arg with
               | None => PPath (EPREFIX const)
               | Some x => if py_eq (PPath (normalize_path env x)) (PStr "/")
                           then PStr "" else PPath (normalize_path env x)
               end = PPath e) by (unfold e; now destruct eprefix_arg).
  rewrite He. simpl. unfold relative_to_sep.
  destruct (is_dir fs root); destruct (is_absolute e); simpl;
    repeat split; try discriminate; try tauto; try (intros [? ?]; discriminate).
Qed.

Lemma X17_constructor_postcondition_witness :
  __init__ tree_env prefix_fs prefix_const None None None true
           (Some (PPath (P "/mnt/target"))) (Some (PPath (P "/mnt/target")))
  = ([], Built prefix_instance)
  /\ is_dir prefix_fs (config_root (attrs prefix_instance)) = true
  /\ exists e,
       eprefix prefix_instance = PPath e
       /\ is_absolute e = true
       /\ esysroot prefix_instance
          = {| is_absolute :=
                 is_absolute (Path_of_pyval (sysroot (attrs prefix_instance)));
               segs := segs (Path_of_pyval (sysroot (attrs prefix_instance)))
                       ++ segs e |}.
Proof.
  assert (Hrun : __init__ tree_env prefix_fs prefix_const None None None true
                          (Some (PPath (P "/mnt/target")))
                          (Some (PPath (P "/mnt/target")))
                 = ([], Built prefix_instance)) by (vm_compute; reflexivity).
  split; [exact Hrun |].
  destruct (X17_constructor_postcondition tree_env prefix_fs prefix_const None None None
              true (Some (PPath (P "/mnt/target"))) (Some (PPath (P "/mnt/target")))
              [] prefix_instance Hrun) as [_ [_ [Hdir [_ [_ Hpre]]]]].
  split; assumption.
Defined.

Lemma X18_constructor_failures_witness :
  __init__ tree_env prefix_fs prefix_const (Some (P "/nowhere")) None None true None None
  = ([Msg_not_a_directory "PORTAGE_CONFIGROOT" (P "/nowhere")],
     Failed (Known (DirectoryNotFound (P "/nowhere"))))
  /\ __init__ tree_env prefix_fs prefix_const None (Some (P "usr/local")) None true
              None None
     = ([], Failed ValueError).
Proof.
  split.
  - apply (proj1 (X18_constructor_failures tree_env prefix_fs prefix_const
                    (Some (P "/nowhere")) None None true None None)).
    vm_compute. reflexivity.
  - apply (proj1 (proj2 (X18_constructor_failures tree_env prefix_fs prefix_const
                           None (Some (P "usr/local")) None true None None))).
    split; vm_compute; reflexivity.
Defined.

(** X19.  After the constructor and [set_root_override] have both
    returned, the target root is an existing directory, [eroot] is the
    target root followed by the segments of the prefix, and [esysroot]
    is one of two paths: the prefix under the root directory when no
    sysroot was given to the constructor, and [eroot] itself when one
    was, the stored sysroot being then the target root. *)
Theorem X19_esysroot_is_prefix_or_eroot (env : Collab) (fs : FS) (const : Constants)
    (config_root_arg eprefix_arg : option Path) (config_profile_path_arg : option PyVal)
    (local_config : bool) (target_root_arg sysroot_arg root_overwrite : option PyVal)
    (msgs msgs' : list message) (self : instance) (r : roots) :
  __init__ env fs const config_root_arg eprefix_arg config_profile_path_arg
           local_config target_root_arg sysroot_arg = (msgs, Built self) ->
  set_root_override_roots env fs const self root_overwrite = (msgs', Built r) ->
  is_dir fs (root_target r) = true
  /\ exists e,
       eprefix self = PPath e
       /\ eroot r = {| is_absolute := is_absolute (root_target r);
                       segs := segs (root_target r) ++ segs e |}
       /\ (sysroot_arg = None ->
           esysroot self = {| is_absolute := true; segs := segs e |})
       /\ (sysroot_arg <> None ->
           sysroot (attrs self) = PPath (root_target r)
           /\ esysroot self = eroot r).
Proof.
  intros Hbuilt Hroots.
  destruct (__init___built _ _ _ _ _ _ _ _ _ _ _ Hbuilt)
    as [_ [Hattrs [_ [_ [_ [e [_ [He [Habs Hesys]]]]]]]]].
  unfold set_root_override_roots in Hroots.
  destruct (set_root_override env fs (attrs self) root_overwrite) as [m [root|err]]
    eqn:Hsro; [|discriminate].
  apply set_root_override_returns in Hsro as [_ [Hdir [Hsys _]]].
  rewrite He in Hroots. simpl in Hroots. unfold relative_to_sep in Hroots.
  rewrite Habs in Hroots.
  destruct (is_absolute (GLOBAL_CONFIG_PATH const)); [|discriminate].
  injection Hroots as _ <-. simpl.
  split; [assumption |]. exists e. split; [assumption |]. split; [reflexivity |].
  rewrite Hattrs in Hsys, Hesys. simpl in Hsys, Hesys. split.
  - intros ->. exact Hesys.
  - intros Hsome. destruct sysroot_arg as [v|]; [|congruence].
    destruct Hsys as [Hsys | Hsys]; [discriminate |].
    rewrite Hattrs. simpl. split; [assumption |].
    rewrite Hesys, Hsys. reflexivity.
Qed.

Lemma X19_esysroot_is_prefix_or_eroot_witness :
  exists r,
    set_root_override_roots tree_env prefix_fs prefix_const prefix_instance None
    = ([], Built r)
    /\ eroot r = P "/mnt/target/opt/gentoo"
    /\ global_config_path r = P "/opt/gentoo/usr/share/portage/config"
    /\ sysroot (attrs prefix_instance) = PPath (root_target r)
    /\ esysroot prefix_instance = eroot r.
Proof.
  assert (Hinit : __init__ tree_env prefix_fs prefix_const None None None true
                           (Some (PPath (P "/mnt/target")))
                           (Some (PPath (P "/mnt/target")))
                  = ([], Built prefix_instance)) by (vm_compute; reflexivity).
  eexists. split; [vm_compute; reflexivity |].
  split; [vm_compute; reflexivity |]. split; [vm_compute; reflexivity |].
  match goal with
  | |- context [eroot ?r] =>
      assert (Hroots : set_root_override_roots tree_env prefix_fs prefix_const
                         prefix_instance None = ([], Built r))
        by (vm_compute; reflexivity);
      destruct (X19_esysroot_is_prefix_or_eroot tree_env prefix_fs prefix_const
                  None None None true (Some (PPath (P "/mnt/target")))
                  (Some (PPath (P "/mnt/target"))) None [] [] prefix_instance r
                  Hinit Hroots) as [_ [e [_ [_ [_ Hexplicit]]]]]
  end.
  apply Hexplicit. discriminate.
Defined.

Lemma fold_add_overlay (env : Collab) (fs : FS) (tokens : list string) (acc : list Path) :
  fold_left (add_overlay env fs) tokens acc
  = acc ++ filter (is_dir fs)
             (map (fun ov => child (normalize_path env (Path_of_string ov)) "profiles")
                  tokens).
Proof.
  revert acc. induction tokens as [|ov tokens IH]; intros acc; simpl.
  - now rewrite app_nil_r.
  - rewrite IH. unfold add_overlay.
    destruct (is_dir fs (child (normalize_path env (Path_of_string ov)) "profiles"));
      [now rewrite <- app_assoc | reflexivity].
Qed.

(** X20.  When [set_port_dirs] returns, the overlay profile
    directories are the [profiles] directories of the normalised
    overlay tokens that exist as directories, in the order of the
    tokens; [profile_locations] is the [profiles] directory of
    [portdir], when one is given and without a test that it exists,
    followed by them; and [profile_and_user_locations] is
    [profile_locations] followed by the user configuration directory
    when user configuration is enabled, and [profile_locations]
    otherwise. *)
Theorem X20_port_dirs (env : Collab) (fs : FS)
    (shlex_split : string -> option (list string)) (self : instance)
    (portdir_arg : option Path) (portdir_overlay_arg : option string) (d : port_dirs) :
  set_port_dirs env fs shlex_split self portdir_arg portdir_overlay_arg = Built d ->
  exists tokens,
    shlex_split (portdir_overlay d) = Some tokens
    /\ portdir_overlay d = match portdir_overlay_arg with
                           | Some s => s
                           | None => ""%string
                           end
    /\ overlay_profiles d
       = filter (is_dir fs)
           (map (fun ov => child (normalize_path env (Path_of_string ov)) "profiles")
                tokens)
    /\ Forall (fun p => is_dir fs p = true) (overlay_profiles d)
    /\ profile_locations d
       = match portdir_arg with
         | Some p => [child p "profiles"]
         | None => []
         end ++ overlay_profiles d
    /\ profile_and_user_locations d
       = profile_locations d
         ++ if _user_config (attrs self) then [abs_user_config self] else [].
Proof.
  unfold set_port_dirs. cbv zeta.
  destruct (shlex_split _) as [tokens|] eqn:Hsplit; [|discriminate].
  intros H. injection H as <-. simpl. exists tokens.
  rewrite fold_add_overlay. simpl.
  repeat split; auto.
  - apply Forall_forall. intros p Hp. now apply filter_In in Hp.
  - destruct (_user_config (attrs self)); [reflexivity | now rewrite app_nil_r].
Qed.

Lemma X20_port_dirs_witness :
  exists d,
    set_port_dirs tree_env prefix_fs sample_split prefix_instance (Some (P "/repo"))
                  (Some "/overlay /empty /missing")
    = Built d
    /\ overlay_profiles d = [P "/overlay/profiles"]
    /\ profile_and_user_locations d
       = [P "/repo/profiles"; P "/overlay/profiles"; P "/opt/gentoo/etc/portage"]
    /\ Forall (fun p => is_dir prefix_fs p = true) (overlay_profiles d).
Proof.
  eexists. split; [vm_compute; reflexivity |].
  split; [vm_compute; reflexivity |]. split; [vm_compute; reflexivity |].
  match goal with
  | |- context [overlay_profiles ?d] =>
      assert (Hrun : set_port_dirs tree_env prefix_fs sample_split prefix_instance
                       (Some (P "/repo")) (Some "/overlay /empty /missing"%string)
                     = Built d) by (vm_compute; reflexivity);
      destruct (X20_port_dirs tree_env prefix_fs sample_split prefix_instance
                  (Some (P "/repo")) (Some "/overlay /empty /missing"%string) d Hrun)
        as [tokens [_ [_ [_ [Hall _]]]]]
  end.
  exact Hall.
Defined.

(* ================================================================== *)
(** ** [load_profiles] as a whole *)

(** X21.  On an acyclic parent graph [load_profiles] ends: once the
    fuel exceeds the rank of the selected profile directory, the call
    returns or raises. *)
Theorem X21_load_profiles_ends (env : Collab) (fs : FS) (fuel : nat)
    (self : LocationsManager) (known_repository_paths : list Path)
    (rank : Path -> nat) :
  acyclic env fs (build_known_repos env fs known_repository_paths) rank ->
  (forall v, fst (select_profile_path env fs self) = Some v ->
             (rank (Path_resolve fs (Path_of_pyval v)) < fuel)%nat) ->
  load_profiles env fs fuel self known_repository_paths <> LoadDiverged.
Proof.
  intros Hacyclic Hfuel. unfold load_profiles.
  destruct (select_profile_path env fs self) as [pp msgs]. simpl in Hfuel.
  unfold resolve_top.
  destruct pp as [v|].
  - destruct (py_truthy v).
    + pose proof (_addProfile_total env fs _ rank Hacyclic fuel
                    (Path_resolve fs (Path_of_pyval v)) [] (empty_state msgs)
                    (Hfuel v eq_refl)) as Htotal.
      destruct (_addProfile env fs fuel _ _ [] (empty_state msgs)) as [s|e s|].
      * destruct (add_user_profile env fs self s). discriminate.
      * destruct e; try discriminate.
        destruct (add_user_profile env fs self _). discriminate.
      * congruence.
    + destruct (add_user_profile env fs self _). discriminate.
  - destruct (add_user_profile env fs self _). discriminate.
Qed.

Lemma X21_load_profiles_ends_witness :
  load_profiles tree_env tree_fs 3 tree_manager [P "/repo"; P "/repo/nested"]
  <> LoadDiverged.
Proof.
  apply (X21_load_profiles_ends tree_env tree_fs 3 tree_manager
           [P "/repo"; P "/repo/nested"] tree_rank).
  - exact tree_acyclic.
  - intros v Hv. vm_compute in Hv. injection Hv as <-. vm_compute. lia.
Defined.

(** X22.  When [load_profiles] returns with profiles, they are the
    stack resolved from the selected profile directory, parents before
    children in the order of the parent files, followed by the user
    profile directory when one was recorded. *)
Theorem X22_loaded_profiles_shape (env : Collab) (fs : FS) (fuel : nat)
    (self : LocationsManager) (known_repository_paths : list Path) (r : loaded) :
  load_profiles env fs fuel self known_repository_paths = Loaded r ->
  profiles (final r) <> [] ->
  exists v stack,
    profile_path r = Some v
    /\ py_truthy v = true
    /\ Resolves env fs (build_known_repos env fs known_repository_paths)
                (Path_resolve fs (Path_of_pyval v)) stack
    /\ profiles (final r)
       = stack ++ match user_profile_dir r with
                  | Some d => [d]
                  | None => []
                  end.
Proof.
  unfold load_profiles.
  destruct (select_profile_path env fs self) as [pp msgs].
  destruct (resolve_top env fs fuel _ pp msgs) as [st|e st|] eqn:Htop;
    try discriminate.
  assert (Hbase : profiles st <> [] ->
            exists v stack,
              pp = Some v /\ py_truthy v = true
              /\ Resolves env fs (build_known_repos env fs known_repository_paths)
                          (Path_resolve fs (Path_of_pyval v)) stack
              /\ profiles st = stack).
  { unfold resolve_top in Htop. intros Hne.
    destruct pp as [v|]; [|injection Htop as <-; now destruct Hne].
    destruct (py_truthy v) eqn:Hv; [|injection Htop as <-; now destruct Hne].
    destruct (_addProfile env fs fuel _ _ [] (empty_state msgs)) as [s|e s|] eqn:Hrun.
    - injection Htop as <-.
      apply _addProfile_shape in Hrun as [stack [Hprof Hres]].
      exists v, stack. auto.
    - destruct e; try discriminate. injection Htop as <-. now destruct Hne.
    - discriminate. }
  destruct (add_user_profile_cases env fs self st) as [Hnone | [d [n [Hsome _]]]].
  - rewrite Hnone. intros H Hne. injection H as <-. simpl in *.
    destruct (Hbase Hne) as [v [stack [Hpp [Hv [Hres Hprof]]]]].
    exists v, stack. rewrite app_nil_r. auto.
  - rewrite Hsome. intros H _. injection H as <-. simpl.
    assert (Hne : profiles st <> []).
    { intros Hnil. unfold add_user_profile in Hsome. rewrite Hnil in Hsome.
      destruct (_user_config self); discriminate. }
    destruct (Hbase Hne) as [v [stack [Hpp [Hv [Hres Hprof]]]]].
    exists v, stack. rewrite Hprof. auto.
Qed.

Lemma X22_loaded_profiles_shape_witness :
  exists r v stack,
    load_profiles tree_env tree_fs 3 tree_manager [P "/repo"; P "/repo/nested"] = Loaded r
    /\ profile_path r = Some v
    /\ py_truthy v = true
    /\ Resolves tree_env tree_fs
                (build_known_repos tree_env tree_fs [P "/repo"; P "/repo/nested"])
                (Path_resolve tree_fs (Path_of_pyval v)) stack
    /\ profiles (final r)
       = stack ++ match user_profile_dir r with
                  | Some d => [d]
                  | None => []
                  end.
Proof.
  eexists.
  match goal with
  | |- exists v stack, ?run = Loaded ?r /\ _ =>
      assert (Hrun : run = Loaded r) by (vm_compute; reflexivity);
      destruct (X22_loaded_profiles_shape tree_env tree_fs 3 tree_manager
                  [P "/repo"; P "/repo/nested"] r Hrun)
        as [v [stack H]]; [discriminate |];
      exists v, stack; split; [exact Hrun | exact H]
  end.
Defined.
